(** * tensorrt_llm/executor/utils.py

    A shallow embedding of the executor utilities: the choice of MPI session
    from the process environment, the local process-pool session, the
    NamedTuple value types carried between worker and coordinator, and the
    in-process queue.

    Python objects that the module mutates ([queue.Queue], the process pool)
    are modelled by explicit state passing; a call either returns, raises, or
    never returns, which is what [outcome] records. *)

From Stdlib Require Import ZArith Ascii String List Lia.
From stdpp Require Import base option list gmap strings.

Local Open Scope string_scope.
Local Open Scope list_scope.

(** ** The fragment of Python the module relies on *)
Module Py.

(** Exception classes met in the module.  [RequestError] is declared by the
    module itself (a subclass of [RuntimeError]); [queue_Empty] is
    [queue.Empty]; the others are builtins. *)
Inductive exc_class :=
| BaseException
| Exception
| ArithmeticError
| AssertionError
| AttributeError
| LookupError
| NameError
| RuntimeError
| TypeError
| ValueError
| IndexError
| OverflowError
| queue_Empty
| RequestError.

#[global] Instance exc_class_eq_dec : EqDecision exc_class.
Proof. solve_decision. Defined.

(** The direct base class, [None] at the root of the hierarchy. *)
Definition base_of (c : exc_class) : option exc_class :=
  match c with
  | BaseException => None
  | Exception => Some BaseException
  | RequestError => Some RuntimeError
  | OverflowError => Some ArithmeticError
  | IndexError => Some LookupError
  | ArithmeticError | AssertionError | AttributeError | LookupError
  | NameError | RuntimeError | TypeError | ValueError
  | queue_Empty => Some Exception
  end.

(** A class followed by its ancestors, nearest first. *)
Fixpoint mro_upto (fuel : nat) (c : exc_class) : list exc_class :=
  match fuel with
  | O => []
  | S fuel' =>
      c :: match base_of c with
           | Some b => mro_upto fuel' b
           | None => []
           end
  end.

Definition mro (c : exc_class) : list exc_class := mro_upto 4 c.

Definition issubclass (c d : exc_class) : bool := bool_decide (d ∈ mro c).

(** An exception instance: its class and its message. *)
Record exc := Exc { exc_type : exc_class; exc_msg : string }.

(** How a call ends.  [Blocks] is a call that never returns: the caller
    waits on a condition that nothing will ever signal. *)
Inductive outcome (A : Type) :=
| Returns (a : A)
| Raises (e : exc)
| Blocks.
Arguments Returns {A} a.
Arguments Raises {A} e.
Arguments Blocks {A}.

(** Computations over a mutable object of type [S]. *)
Definition M (S A : Type) : Type := S -> outcome A * S.

Definition ret {S A} (a : A) : M S A := fun s => (Returns a, s).

Definition raise {S A} (e : exc) : M S A := fun s => (Raises e, s).

Definition bind {S A B} (c : M S A) (k : A -> M S B) : M S B :=
  fun s =>
    match c s with
    | (Returns a, s') => k a s'
    | (Raises e, s') => (Raises e, s')
    | (Blocks, s') => (Blocks, s')
    end.

(** [try: body except cls: handler]. *)
Definition try_except {S A} (body : M S A) (cls : exc_class)
    (handler : M S A) : M S A :=
  fun s =>
    match body s with
    | (Raises e, s') =>
        if issubclass (exc_type e) cls then handler s' else (Raises e, s')
    | r => r
    end.

(** A list comprehension [[f x for x in l]]: elements are evaluated in
    order and the first one that does not return ends the evaluation. *)
Fixpoint comprehension {S A B} (f : A -> M S B) (l : list A) : M S (list B) :=
  match l with
  | [] => ret []
  | x :: l' =>
      bind (f x) (fun y =>
      bind (comprehension f l') (fun ys =>
      ret (y :: ys)))
  end.

(** Limits of the interpreter (CPython on a 64-bit POSIX platform).
    [TIMEOUT_MAX] is [threading.TIMEOUT_MAX] in whole seconds, the longest
    wait a lock accepts; an [int] converts to a [float] when it rounds to a
    finite double; [INT_MAX] is the largest C [int]. *)
Definition TIMEOUT_MAX : Z := 9223372036.

Definition float_limit : Z := 2 ^ 1024 - 2 ^ 970.

Definition fits_float (n : Z) : bool := (n <? float_limit)%Z.

Definition INT_MAX : Z := 2147483647.

(** [range(n)]: empty when [n <= 0]. *)
Definition range (n : Z) : list Z := Z.of_nat <$> seq 0 (Z.to_nat n).

(** Truth value of a [str | None]. *)
Definition truthy (v : option string) : bool :=
  match v with
  | None => false
  | Some s => negb (bool_decide (s = ""))
  end.

(** The one-character string a Python literal writes as backslash-n. *)
Definition newline : string := String "010"%char "".

(** [str(v)] of a [str | None], as an f-string renders it. *)
Definition format (v : option string) : string := default "None" v.

End Py.

Import Py.

Notation "'let*' x := c 'in' k" := (bind c (fun x => k))
  (at level 10, x name, c at level 100, k at level 200, only parsing).

(** ** Session selection *)

(** [os.getenv] on [os.environ], a mapping from names to strings. *)
Definition getenv (env : gmap string string) (key : string) : option string := env !! key.

Definition get_spawn_proxy_process_ipc_addr_env (env : gmap string string) : option string :=
  getenv env "TLLM_SPAWN_PROXY_PROCESS_IPC_ADDR".

Definition get_spawn_proxy_process_env (env : gmap string string) : bool :=
  bool_decide (getenv env "TLLM_SPAWN_PROXY_PROCESS" = Some "1").

(** One call of [print_colored_debug]: the message and the colour. *)
Definition debug_line : Type := string * string.

Section CreateSession.
(** The two session classes come from [llmapi.mpi_session]; the selection
    is parametric in what their constructors do. *)
Context {Session : Type}.
Variable RemoteMpiCommSessionClient : option string -> outcome Session.
Variable MpiCommSession : Z -> outcome Session.

(** The state threaded through is the debug output written so far. *)
Definition print_colored_debug (msg color : string) : M (list debug_line) unit :=
  fun out => (Returns tt, out ++ [(msg, color)]).

(** The [assert] statement, as the interpreter executes it when it is not
    run with [-O]. *)
Definition assert_ (cond : bool) (msg : string) : M (list debug_line) unit :=
  if cond then ret tt else raise (Exc AssertionError msg).

Definition new {A} (c : outcome A) : M (list debug_line) A := fun out => (c, out).

Definition create_mpi_comm_session (env : gmap string string) (n_workers : Z)
    : M (list debug_line) Session :=
  if get_spawn_proxy_process_env env then
    let* _ := assert_ (truthy (get_spawn_proxy_process_ipc_addr_env env))
                "TLLM_SPAWN_PROXY_PROCESS_IPC_ADDR is not set." in
    let* _ := print_colored_debug
           ("Using RemoteMpiPoolSessionClient to bind to external MPI processes at "
            +:+ format (get_spawn_proxy_process_ipc_addr_env env) +:+ newline)
           "yellow" in
    new (RemoteMpiCommSessionClient (get_spawn_proxy_process_ipc_addr_env env))
  else
    let* _ := print_colored_debug
           ("Using MpiCommSession to bind to external MPI processes" +:+ newline)
           "yellow" in
    new (MpiCommSession n_workers).
End CreateSession.

(** ** The local process-pool session *)
Module ProcessPoolExecutorSession.
Section Pool.
(** A task is a callable, submitted together with its arguments; [Val] is
    what a task returns. *)
Context {Task Args Val : Type}.

(** How the job behind the future numbered [k] ends when the pool runs
    it: it returns a value, raises, or never finishes.  Futures are
    numbered in the order the pool hands them out. *)
Variable execute : nat -> Task -> Args -> outcome Val.

(** [concurrent.futures.Future], as the handle of one submitted job. *)
Record Future := { fut_id : nat; fut_task : Task; fut_args : Args }.

(** [concurrent.futures.ProcessPoolExecutor].  [awaited] is a ghost field:
    the ids of the futures on which [result()] has been called, in call
    order. *)
Record ProcessPoolExecutor := {
  max_workers : Z;
  work_items : list Future;
  shutdown_thread : bool;
  awaited : list nat
}.

Record t := { n_workers : Z; mpi_pool : ProcessPoolExecutor }.

(** The call queue of the pool is bounded by a semaphore of
    [max_workers + 1] slots, a C [int]. *)
Definition ProcessPoolExecutor_new (workers : Z) : outcome ProcessPoolExecutor :=
  if (workers <=? 0)%Z
  then Raises (Exc ValueError "max_workers must be greater than 0")
  else if (INT_MAX <? workers + 1)%Z
  then Raises (Exc OverflowError "Python int too large to convert to C int")
  else Returns {| max_workers := workers; work_items := [];
                  shutdown_thread := false; awaited := [] |}.

(** [__init__]. *)
Definition init (workers : Z) : outcome t :=
  match ProcessPoolExecutor_new workers with
  | Returns pool => Returns {| n_workers := workers; mpi_pool := pool |}
  | Raises e => Raises e
  | Blocks => Blocks
  end.

(** [self.mpi_pool.submit(task, *args)]. *)
Definition pool_submit (task : Task) (args : Args) : M t Future :=
  fun self =>
    let pool := mpi_pool self in
    if shutdown_thread pool
    then (Raises (Exc RuntimeError "cannot schedule new futures after shutdown"),
          self)
    else
      let f := {| fut_id := length (work_items pool);
                  fut_task := task; fut_args := args |} in
      (Returns f,
       {| n_workers := n_workers self;
          mpi_pool := {| max_workers := max_workers pool;
                         work_items := work_items pool ++ [f];
                         shutdown_thread := shutdown_thread pool;
                         awaited := awaited pool |} |}).

(** [future.result()]: waits for the job and hands over how it ended. *)
Definition result (f : Future) : M t Val :=
  fun self =>
    let pool := mpi_pool self in
    (execute (fut_id f) (fut_task f) (fut_args f),
     {| n_workers := n_workers self;
        mpi_pool := {| max_workers := max_workers pool;
                       work_items := work_items pool;
                       shutdown_thread := shutdown_thread pool;
                       awaited := awaited pool ++ [fut_id f] |} |}).

Definition submit (task : Task) (args : Args) : M t (list Future) :=
  fun self =>
    comprehension (fun _ : Z => pool_submit task args) (range (n_workers self)) self.

Definition submit_sync (task : Task) (args : Args) : M t (list Val) :=
  fun self =>
    (let* futures :=
       comprehension (fun _ : Z => pool_submit task args) (range (n_workers self)) in
     comprehension result futures) self.

(** [self.mpi_pool.shutdown(wait=False)]. *)
Definition shutdown : M t unit :=
  fun self =>
    let pool := mpi_pool self in
    (Returns tt,
     {| n_workers := n_workers self;
        mpi_pool := {| max_workers := max_workers pool;
                       work_items := work_items pool;
                       shutdown_thread := true;
                       awaited := awaited pool |} |}).

(** *** States used to describe what a call leaves behind *)

(** The futures numbered [first], [first + 1], ... for [count] submissions of
    one task. *)
Definition futures_from (first count : nat) (task : Task) (args : Args)
    : list Future :=
  (fun k => {| fut_id := k; fut_task := task; fut_args := args |})
    <$> seq first count.

(** [self] after the pool has taken the futures [fs]. *)
Definition submitted (fs : list Future) (self : t) : t :=
  let pool := mpi_pool self in
  {| n_workers := n_workers self;
     mpi_pool := {| max_workers := max_workers pool;
                    work_items := work_items pool ++ fs;
                    shutdown_thread := shutdown_thread pool;
                    awaited := awaited pool |} |}.

(** [self] after [result()] has been called on the futures [ids]. *)
Definition waited (ids : list nat) (self : t) : t :=
  let pool := mpi_pool self in
  {| n_workers := n_workers self;
     mpi_pool := {| max_workers := max_workers pool;
                    work_items := work_items pool;
                    shutdown_thread := shutdown_thread pool;
                    awaited := awaited pool ++ ids |} |}.
End Pool.
Arguments Future : clear implicits.
Arguments ProcessPoolExecutor : clear implicits.
Arguments t : clear implicits.
End ProcessPoolExecutorSession.

(** ** The in-process queue *)
Module IntraProcessQueue.
Section Queue.
Context {A : Type}.

(** [queue.Queue()] without a size bound, as the list of its items, oldest
    first.  A timeout is a whole number of seconds.  [get] rejects a
    negative one, then computes the deadline as a [float], and only when the
    queue is empty waits on the condition, which refuses a wait longer than
    [TIMEOUT_MAX]. *)
Definition Queue_put (item : A) : M (list A) unit :=
  fun q => (Returns tt, q ++ [item]).

Definition Queue_get (timeout : option Z) : M (list A) A :=
  fun q =>
    match timeout with
    | None =>
        match q with
        | [] => (Blocks, q)
        | item :: q' => (Returns item, q')
        end
    | Some secs =>
        if (secs <? 0)%Z
        then (Raises (Exc ValueError "'timeout' must be a non-negative number"), q)
        else if negb (fits_float secs)
        then (Raises (Exc OverflowError "int too large to convert to float"), q)
        else
          match q with
          | [] =>
              if (TIMEOUT_MAX <? secs)%Z
              then (Raises (Exc OverflowError
                              "timestamp too large to convert to C _PyTime_t"), q)
              else (Raises (Exc queue_Empty ""), q)
          | item :: q' => (Returns item, q')
          end
    end.

Record t := { queue : list A }.

(** A method of [self.queue] called from a method of [self]. *)
Definition on_queue {B} (c : M (list A) B) : M t B :=
  fun self => let (r, q) := c (queue self) in (r, {| queue := q |}).

(** [__init__]. *)
Definition init : t := {| queue := [] |}.

Definition put (obj : A) : M t unit := on_queue (Queue_put obj).

Definition get (timeout : option Z) : M t A := on_queue (Queue_get timeout).

Definition close : M t unit := ret tt.

Definition poll (timeout : option Z) : M t bool :=
  try_except
    (let* item := on_queue (Queue_get timeout) in
     let* _ := on_queue (Queue_put item) in
     ret true)
    queue_Empty
    (ret false).

(** A timeout that [queue.Queue.get] accepts whatever the queue holds:
    none, or one from 0 to [TIMEOUT_MAX]. *)
Definition accepted (timeout : option Z) : Prop :=
  forall secs, timeout = Some secs -> (0 <= secs <= TIMEOUT_MAX)%Z.

(** *** Sequences of calls made by one thread *)
Inductive op :=
| Put (obj : A)
| Get (timeout : option Z)
| Poll (timeout : option Z)
| Close.

Definition is_poll (o : op) : bool :=
  match o with Poll _ => true | _ => false end.

(** A call together with how it ended. *)
Inductive event :=
| DidPut (obj : A) (r : outcome unit)
| DidGet (timeout : option Z) (r : outcome A)
| DidPoll (timeout : option Z) (r : outcome bool)
| DidClose (r : outcome unit).

Definition call (o : op) (self : t) : event * t :=
  match o with
  | Put obj => let (r, self') := put obj self in (DidPut obj r, self')
  | Get timeout => let (r, self') := get timeout self in (DidGet timeout r, self')
  | Poll timeout => let (r, self') := poll timeout self in (DidPoll timeout r, self')
  | Close => let (r, self') := close self in (DidClose r, self')
  end.

Definition blocked (e : event) : bool :=
  match e with
  | DidPut _ Blocks | DidGet _ Blocks | DidPoll _ Blocks | DidClose Blocks => true
  | _ => false
  end.

(** The calls are made one after the other; an exception is caught by
    the caller, who goes on; a call that never returns ends the run. *)
Fixpoint run (ops : list op) (self : t) : list event * t :=
  match ops with
  | [] => ([], self)
  | o :: ops' =>
      let (e, self') := call o self in
      if blocked e then ([e], self')
      else let (es, self'') := run ops' self' in (e :: es, self'')
  end.

(** The items returned by the [get] calls of a run, in order. *)
Fixpoint received (es : list event) : list A :=
  match es with
  | [] => []
  | DidGet _ (Returns item) :: es' => item :: received es'
  | _ :: es' => received es'
  end.

(** Strict first-in first-out delivery, read off a run: [pending] holds
    the items put and not yet returned by a [get], oldest first, and every
    [get] that returns must return the oldest of them. *)
Fixpoint strict_fifo (pending : list A) (es : list event) : Prop :=
  match es with
  | [] => True
  | DidPut obj (Returns _) :: es' => strict_fifo (pending ++ [obj]) es'
  | DidGet _ (Returns item) :: es' =>
      match pending with
      | oldest :: pending' => item = oldest /\ strict_fifo pending' es'
      | [] => False
      end
  | _ :: es' => strict_fifo pending es'
  end.
End Queue.
Arguments t : clear implicits.
Arguments op : clear implicits.
Arguments event : clear implicits.
End IntraProcessQueue.

(** ** The NamedTuple value types *)

(** The four classes the module declares with [NamedTuple]. *)
Inductive nt_class :=
| ExecutorResponseTensors
| ErrorResponse
| ExecutorResponse
| WorkerCommIpcAddrs.

(** Python values that the fields hold.  Field annotations are not enforced
    at run time, so a field may hold any value.  [PyOpaque] stands for the
    objects the module never looks into (tensors, finish reasons,
    disaggregated parameters, time stamps).  [PyRef] is a reference to an
    object kept in a store (see [machine] below); [PyList] and
    [PyNamedTuple] are the contents of a list and of a NamedTuple instance
    as read at one moment. *)
#[warnings="-register-all"]
Inductive pyval :=
| PyNone
| PyBool (b : bool)
| PyInt (z : Z)
| PyStr (s : string)
| PyExc (e : exc)
| PyList (l : list pyval)
| PyOpaque (tag : nat)
| PyNamedTuple (c : nt_class) (items : list pyval)
| PyRef (addr : nat).

Definition nt_name (c : nt_class) : string :=
  match c with
  | ExecutorResponseTensors => "ExecutorResponseTensors"
  | ErrorResponse => "ErrorResponse"
  | ExecutorResponse => "ExecutorResponse"
  | WorkerCommIpcAddrs => "WorkerCommIpcAddrs"
  end.

(** The text of the [AttributeError] for a name an object does not have. *)
Definition no_attribute (type_name name : string) : exc :=
  Exc AttributeError
    ("'" +:+ type_name +:+ "' object has no attribute '" +:+ name +:+ "'").

Definition _fields (c : nt_class) : list string :=
  match c with
  | ExecutorResponseTensors =>
      ["output_token_ids"; "context_logits"; "generation_logits";
       "log_probs"; "cum_log_probs"]
  | ErrorResponse => ["client_id"; "error_msg"; "request_id"]
  | ExecutorResponse =>
      ["client_id"; "tensors"; "finish_reasons"; "is_final"; "sequence_index";
       "error"; "timestamp"; "disaggregated_params"]
  | WorkerCommIpcAddrs =>
      ["request_queue_addr"; "request_error_queue_addr"; "result_queue_addr";
       "stats_queue_addr"; "kv_cache_events_queue_addr"]
  end.

(** Default values, which belong to the last fields of a class. *)
Definition _field_defaults (c : nt_class) : list pyval :=
  match c with
  | ExecutorResponse => [PyNone; PyNone]
  | _ => []
  end.

(** Calling the class with positional arguments: every field without a default needs an argument, and
    there may be no more arguments than fields. *)
Definition nt_new (c : nt_class) (args : list pyval) : outcome pyval :=
  let n := length (_fields c) in
  let d := _field_defaults c in
  if decide (n < length args) then
    Raises (Exc TypeError "too many positional arguments")
  else if decide (length args < n - length d) then
    Raises (Exc TypeError "missing required positional arguments")
  else
    Returns (PyNamedTuple c (args ++ drop (length args - (n - length d)) d)).

(** Position of a field name. *)
Fixpoint field_index (name : string) (fields : list string) : option nat :=
  match fields with
  | [] => None
  | f :: fields' =>
      if decide (f = name) then Some 0 else S <$> field_index name fields'
  end.

(** [obj.name] for the names the class body declares.  The methods and
    special attributes that every tuple has are not modelled: a name that is
    not a declared field is answered as a name the object does not have. *)
Definition getattr (obj : pyval) (name : string) : outcome pyval :=
  match obj with
  | PyNamedTuple c items =>
      match field_index name (_fields c) with
      | Some i =>
          match items !! i with
          | Some v => Returns v
          | None => Raises (no_attribute (nt_name c) name)
          end
      | None => Raises (no_attribute (nt_name c) name)
      end
  | _ => Raises (no_attribute "object" name)
  end.

(** [obj._replace(name=v)]. *)
Definition _replace (obj : pyval) (name : string) (v : pyval) : outcome pyval :=
  match obj with
  | PyNamedTuple c items =>
      match field_index name (_fields c) with
      | Some i => Returns (PyNamedTuple c (<[i := v]> items))
      | None =>
          Raises (Exc ValueError
                    ("Got unexpected field names: ['" +:+ name +:+ "']"))
      end
  | _ => Raises (no_attribute "object" "_replace")
  end.

(** *** What a caller can do with the values

    Objects live in a store, addressed by position, and a value refers to
    them with [PyRef].  Two kinds of object matter here: lists, which are
    changed in place by [append] and by item assignment, and NamedTuple
    instances, which are tuples with [__slots__ = ()]: attribute assignment
    and deletion raise [AttributeError], item assignment raises [TypeError],
    and [_replace] builds a new instance.  The values a statement carries
    are those of [pyval], which has no class objects: assigning one of them
    to [__class__] raises [TypeError].  The in-process queue passes the
    references it is given: nothing is copied. *)
Inductive object :=
| ListObject (items : list pyval)
| TupleObject (c : nt_class) (items : list pyval).


Definition type_name (o : object) : string :=
  match o with
  | ListObject _ => "list"
  | TupleObject c _ => nt_name c
  end.















(** ** Error tiers *)

Inductive tier :=
| NoError
| PerRequest
| ServiceFatal.

Definition isinstance_str (v : pyval) : bool :=
  match v with PyStr _ => true | _ => false end.

Definition isinstance_Exception (v : pyval) : bool :=
  match v with PyExc e => issubclass (exc_type e) Exception | _ => false end.

(** Modelled from the spec: the dispatch on the [error] field of a response
    is made by the coordinator's drain loop, which is not part of this
    module.  The spec (section 4.3, steps 2 to 4, and section 7) treats a plain
    string as a per-request error, a structured exception object as a
    service-fatal error, and forwards the response otherwise. *)
Definition classify_error (err : pyval) : tier :=
  if isinstance_str err then PerRequest
  else if isinstance_Exception err then ServiceFatal
  else NoError.

(** Modelled from the spec: the tier of one item drained from the result
    channel (section 4.3): an [ErrorResponse] is a per-request failure, an
    [ExecutorResponse] is classified by its [error] field, and anything else
    carries no error. *)
Definition classify_response (item : pyval) : tier :=
  match item with
  | PyNamedTuple ErrorResponse _ => PerRequest
  | PyNamedTuple ExecutorResponse _ =>
      match getattr item "error" with
      | Returns err => classify_error err
      | _ => NoError
      end
  | _ => NoError
  end.

(** ** Concrete inputs *)
Module Examples.

(** Stand-ins for the two session classes: each records how it was built. *)
Inductive session :=
| RemoteMpiCommSessionClient (addr : option string)
| MpiCommSession (n_workers : Z).

Definition new_remote (addr : option string) : outcome session :=
  Returns (RemoteMpiCommSessionClient addr).

Definition new_comm (n_workers : Z) : outcome session :=
  Returns (MpiCommSession n_workers).

Definition env_flag_only : gmap string string :=
  {[ "TLLM_SPAWN_PROXY_PROCESS" := "1" ]}.

Definition env_flag_empty_addr : gmap string string :=
  <[ "TLLM_SPAWN_PROXY_PROCESS_IPC_ADDR" := "" ]> env_flag_only.

Definition env_flag_addr : gmap string string :=
  <[ "TLLM_SPAWN_PROXY_PROCESS_IPC_ADDR" := "ipc:///tmp/proxy" ]> env_flag_only.

Definition env_no_flag : gmap string string :=
  {[ "TLLM_SPAWN_PROXY_PROCESS_IPC_ADDR" := "ipc:///tmp/proxy" ]}.

(** A pool of three workers that has not been used yet. *)
Definition pool3 : ProcessPoolExecutorSession.t unit unit :=
  {| ProcessPoolExecutorSession.n_workers := 3;
     ProcessPoolExecutorSession.mpi_pool :=
       {| ProcessPoolExecutorSession.max_workers := 3;
          ProcessPoolExecutorSession.work_items := [];
          ProcessPoolExecutorSession.shutdown_thread := false;
          ProcessPoolExecutorSession.awaited := [] |} |}.

(** Every job returns ten times its number. *)
Definition all_succeed (k : nat) (_ _ : unit) : outcome nat := Returns (10 * k).

Definition boom : exc := Exc RequestError "boom".

(** The second of three jobs raises, the other two return. *)
Definition second_fails (k : nat) (_ _ : unit) : outcome nat :=
  if decide (k = 1) then Raises boom else Returns (10 * k).

Definition two_items : IntraProcessQueue.t nat := {| IntraProcessQueue.queue := [1; 2] |}.

Definition five_empty : list pyval :=
  [PyStr ""; PyStr ""; PyStr ""; PyStr ""; PyStr ""].

Definition failed_response : pyval :=
  PyNamedTuple ExecutorResponse
    [PyInt 7; PyNone; PyNone; PyNone; PyNone; PyExc boom; PyNone; PyNone].






End Examples.

(** ** The rest of the module *)

(** The module-level flag, read from the environment when the module is
    imported. *)
Definition PERIODICAL_RESP_IN_AWAIT (env : gmap string string) : bool :=
  bool_decide (getenv env "TLLM_EXECUTOR_PERIODICAL_RESP_IN_AWAIT" = Some "1").

(** What importing the module writes with [logger.info]. *)
Definition import_module (env : gmap string string) : M (list string) unit :=
  if PERIODICAL_RESP_IN_AWAIT env
  then fun log => (Returns tt, log ++ ["Using periodical responses in await_responses"])
  else ret tt.

Section EventLoop.
(** [asyncio.get_running_loop] is a call into the interpreter; [World] is
    whatever state it reads. *)
Context {World Loop : Type}.
Variable get_running_loop : M World Loop.

(** The [return False] of the handler leaves the function at once, which
    [Some] records; [None] falls through to the final [return True]. *)
Definition has_event_loop : M World bool :=
  let* early := try_except
                  (let* _ := get_running_loop in ret None)
                  RuntimeError
                  (ret (Some false)) in
  match early with
  | Some answer => ret answer
  | None => ret true
  end.
End EventLoop.

Section PoolCalls.
Import ProcessPoolExecutorSession.
Context {Task Args Val : Type}.
Variable execute : nat -> Task -> Args -> outcome Val.

(** The methods a caller may invoke on a session. *)
Inductive pool_call :=
| Submit (task : Task) (args : Args)
| SubmitSync (task : Task) (args : Args)
| Shutdown.

(** The session after one call, however the call ended. *)
Definition after_call (c : pool_call) (self : t Task Args) : t Task Args :=
  match c with
  | Submit task args => (submit task args self).2
  | SubmitSync task args => (submit_sync execute task args self).2
  | Shutdown => (shutdown self).2
  end.

Definition after_calls (cs : list pool_call) (self : t Task Args) : t Task Args :=
  fold_left (fun s c => after_call c s) cs self.

(** Futures are numbered by their position in the pool, and only futures
    the pool has handed out have been waited on. *)
Definition consistent (self : t Task Args) : Prop :=
  fut_id <$> work_items (mpi_pool self) =
    seq 0 (length (work_items (mpi_pool self))) /\
  Forall (fun k => k < length (work_items (mpi_pool self)))
    (awaited (mpi_pool self)).
End PoolCalls.
Arguments pool_call : clear implicits.

Section QueueRuns.
Import IntraProcessQueue.
Context {A : Type}.

(** The items accepted by the [put] calls of a run, in order. *)
Fixpoint put_items (es : list (event A)) : list A :=
  match es with
  | [] => []
  | DidPut obj (Returns _) :: es' => obj :: put_items es'
  | _ :: es' => put_items es'
  end.
End QueueRuns.

Module MoreExamples.

(** The first job returns, the second never finishes, the third raises. *)
Definition second_hangs (k : nat) (_ _ : unit) : outcome nat :=
  match k with
  | 0 => Returns 0
  | 1 => Blocks
  | _ => Raises Examples.boom
  end.

Definition three_items : IntraProcessQueue.t nat :=
  {| IntraProcessQueue.queue := [1; 2; 3] |}.

Definition no_poll : list (IntraProcessQueue.op nat) :=
  [IntraProcessQueue.Put 1; IntraProcessQueue.Get (Some 0%Z);
   IntraProcessQueue.Put 2; IntraProcessQueue.Put 3;
   IntraProcessQueue.Close; IntraProcessQueue.Get None].

Definition six_args : list pyval :=
  [PyInt 7; PyNone; PyNone; PyBool true; PyInt 0; PyStr "bad request"].

(** No event loop runs in this thread. *)
Definition no_loop : M unit nat :=
  fun w => (Raises (Exc RuntimeError "no running event loop"), w).

Definition calls3 : list (pool_call unit unit) :=
  [Submit tt tt; SubmitSync tt tt; Shutdown; Submit tt tt].

End MoreExamples.

(** * Properties *)

(** ** Session selection *)
Section SessionFacts.
Context {Session : Type}.
Variable Remote : option string -> outcome Session.
Variable Comm : Z -> outcome Session.

Lemma truthy_spec (v : option string) :
  truthy v = false <-> v = None \/ v = Some "".
Proof.
  destruct v as [s|]; simpl.
  - rewrite negb_false_iff, bool_decide_eq_true. split.
    + intros ->. now right.
    + intros [H|H]; congruence.
  - split; auto.
Qed.

(** The selection reads nothing of the environment but the two variables. *)
Lemma create_mpi_comm_session_two_values (env env' : gmap string string) n out :
  get_spawn_proxy_process_env env = get_spawn_proxy_process_env env' ->
  get_spawn_proxy_process_ipc_addr_env env = get_spawn_proxy_process_ipc_addr_env env' ->
  create_mpi_comm_session Remote Comm env n out =
  create_mpi_comm_session Remote Comm env' n out.
Proof.
  intros Hflag Haddr. unfold create_mpi_comm_session.
  rewrite Hflag, Haddr. reflexivity.
Qed.

(** C5. With the spawn-proxy flag set and no (or an empty) proxy address in
    the environment, [create_mpi_comm_session] fails on its assertion,
    having printed nothing and called neither session constructor; with the
    flag set and a non-empty address it ends as the call
    [RemoteMpiCommSessionClient(addr)] does; with the flag unset it ends as
    the call [MpiCommSession(n_workers=n_workers)] does. *)
Theorem create_mpi_comm_session_selection
    (env : gmap string string) (n_workers : Z) (out : list debug_line) :
  (get_spawn_proxy_process_env env = true ->
   get_spawn_proxy_process_ipc_addr_env env = None \/
   get_spawn_proxy_process_ipc_addr_env env = Some "" ->
   create_mpi_comm_session Remote Comm env n_workers out =
     (Raises (Exc AssertionError "TLLM_SPAWN_PROXY_PROCESS_IPC_ADDR is not set."),
      out))
  /\
  (forall addr,
     get_spawn_proxy_process_env env = true ->
     get_spawn_proxy_process_ipc_addr_env env = Some addr ->
     addr <> "" ->
     create_mpi_comm_session Remote Comm env n_workers out =
       (Remote (Some addr),
        (out ++ [("Using RemoteMpiPoolSessionClient to bind to external MPI processes at "
                    +:+ addr +:+ newline, "yellow")])))
  /\
  (get_spawn_proxy_process_env env = false ->
   create_mpi_comm_session Remote Comm env n_workers out =
     (Comm n_workers,
      (out ++ [("Using MpiCommSession to bind to external MPI processes"
                  +:+ newline, "yellow")]))).
Proof.
  unfold create_mpi_comm_session. repeat split.
  - intros -> Haddr. apply truthy_spec in Haddr. rewrite Haddr. reflexivity.
  - intros addr -> Haddr Hne. rewrite Haddr. simpl.
    rewrite bool_decide_eq_false_2 by assumption. reflexivity.
  - intros ->. reflexivity.
Qed.
End SessionFacts.

Lemma create_mpi_comm_session_selection_witness :
  create_mpi_comm_session Examples.new_remote Examples.new_comm
    Examples.env_flag_only 4 [] =
    (Raises (Exc AssertionError "TLLM_SPAWN_PROXY_PROCESS_IPC_ADDR is not set."), [])
  /\
  create_mpi_comm_session Examples.new_remote Examples.new_comm
    Examples.env_flag_addr 4 [] =
    (Returns (Examples.RemoteMpiCommSessionClient (Some "ipc:///tmp/proxy")),
     [("Using RemoteMpiPoolSessionClient to bind to external MPI processes at "
         +:+ "ipc:///tmp/proxy" +:+ newline, "yellow")])
  /\
  create_mpi_comm_session Examples.new_remote Examples.new_comm
    Examples.env_no_flag 4 [] =
    (Returns (Examples.MpiCommSession 4),
     [("Using MpiCommSession to bind to external MPI processes" +:+ newline,
       "yellow")]).
Proof.
  split; [|split].
  - apply (proj1 (create_mpi_comm_session_selection
                    Examples.new_remote Examples.new_comm
                    Examples.env_flag_only 4 [])).
    + vm_compute. reflexivity.
    + left. vm_compute. reflexivity.
  - apply (proj1 (proj2 (create_mpi_comm_session_selection
                           Examples.new_remote Examples.new_comm
                           Examples.env_flag_addr 4 []))
             "ipc:///tmp/proxy").
    + vm_compute. reflexivity.
    + vm_compute. reflexivity.
    + discriminate.
  - apply (proj2 (proj2 (create_mpi_comm_session_selection
                           Examples.new_remote Examples.new_comm
                           Examples.env_no_flag 4 []))).
    vm_compute. reflexivity.
Defined.

(** ** The local process-pool session *)
Section PoolFacts.
Import ProcessPoolExecutorSession.
Context {Task Args Val : Type}.
Variable execute : nat -> Task -> Args -> outcome Val.

Lemma length_range (n : Z) : length (range n) = Z.to_nat n.
Proof. unfold range. rewrite length_fmap, length_seq. reflexivity. Qed.

Lemma length_futures_from first count (task : Task) (args : Args) :
  length (futures_from first count task args) = count.
Proof. unfold futures_from. rewrite length_fmap, length_seq. reflexivity. Qed.

Lemma futures_from_S first count (task : Task) (args : Args) :
  futures_from first (S count) task args =
  {| fut_id := first; fut_task := task; fut_args := args |}
    :: futures_from (S first) count task args.
Proof. reflexivity. Qed.

Lemma submitted_nil (self : t Task Args) : submitted [] self = self.
Proof.
  destruct self as [n [mw wi sd aw]]. unfold submitted. simpl.
  rewrite app_nil_r. reflexivity.
Qed.

Lemma waited_nil (self : t Task Args) : waited [] self = self.
Proof.
  destruct self as [n [mw wi sd aw]]. unfold waited. simpl.
  rewrite app_nil_r. reflexivity.
Qed.

Lemma submitted_cons f fs (self : t Task Args) :
  submitted fs (submitted [f] self) = submitted (f :: fs) self.
Proof. unfold submitted. simpl. rewrite <- app_assoc. reflexivity. Qed.

Lemma waited_cons k ks (self : t Task Args) :
  waited ks (waited [k] self) = waited (k :: ks) self.
Proof. unfold waited. simpl. rewrite <- app_assoc. reflexivity. Qed.

(** A live pool takes every job of a comprehension, numbering the futures
    from the number of jobs it already holds. *)
Lemma comprehension_pool_submit {B} (l : list B) task args (self : t Task Args) :
  shutdown_thread (mpi_pool self) = false ->
  comprehension (fun _ : B => pool_submit task args) l self =
    let fs := futures_from (length (work_items (mpi_pool self))) (length l)
                task args in
    (Returns fs, submitted fs self).
Proof.
  revert self. induction l as [|x l IH]; intros self Hlive; simpl.
  - rewrite submitted_nil. reflexivity.
  - unfold bind at 1. unfold pool_submit at 1. rewrite Hlive.
    unfold bind at 1. rewrite IH by reflexivity. simpl.
    rewrite length_app. simpl. rewrite Nat.add_1_r.
    rewrite futures_from_S. unfold ret.
    f_equal. unfold submitted. simpl. rewrite <- app_assoc, Hlive. reflexivity.
Qed.

(** Waiting on futures that all return gives their values in order. *)
Lemma comprehension_result_all (fs : list (Future Task Args)) (vs : list Val)
    (self : t Task Args) :
  Forall2 (fun f v => execute (fut_id f) (fut_task f) (fut_args f) = Returns v)
    fs vs ->
  comprehension (result execute) fs self =
    (Returns vs, waited (fut_id <$> fs) self).
Proof.
  intros H. revert self. induction H as [|f v fs vs Hf _ IH]; intros self; simpl.
  - rewrite waited_nil. reflexivity.
  - unfold bind at 1. unfold result at 1. rewrite Hf.
    unfold bind at 1. rewrite IH. unfold ret.
    f_equal. apply (waited_cons (fut_id f) (fut_id <$> fs) self).
Qed.

(** Waiting stops at the first future that does not return. *)
Lemma comprehension_result_stops (fs1 fs2 : list (Future Task Args)) f
    (vs1 : list Val) (self : t Task Args) :
  Forall2 (fun f v => execute (fut_id f) (fut_task f) (fut_args f) = Returns v)
    fs1 vs1 ->
  (forall v, execute (fut_id f) (fut_task f) (fut_args f) <> Returns v) ->
  comprehension (result execute) (fs1 ++ f :: fs2) self =
    (match execute (fut_id f) (fut_task f) (fut_args f) with
     | Returns _ => Blocks
     | Raises e => Raises e
     | Blocks => Blocks
     end,
     waited (fut_id <$> (fs1 ++ [f])) self).
Proof.
  intros H Hf. revert self.
  induction H as [|g v fs vs Hg _ IH]; intros self; simpl.
  - unfold bind at 1. unfold result at 1.
    destruct (execute (fut_id f) (fut_task f) (fut_args f)) as [v|e|] eqn:E.
    + exfalso. exact (Hf v eq_refl).
    + reflexivity.
    + reflexivity.
  - unfold bind at 1. unfold result at 1. rewrite Hg.
    unfold bind at 1. rewrite IH.
    destruct (execute (fut_id f) (fut_task f) (fut_args f)) as [w|e|];
      (f_equal; apply (waited_cons (fut_id g) (fut_id <$> (fs ++ [f])) self)).
Qed.

Lemma fut_id_futures_from first count (task : Task) (args : Args) :
  fut_id <$> futures_from first count task args = seq first count.
Proof.
  unfold futures_from. rewrite <- list_fmap_compose.
  apply list_fmap_id.
Qed.

Lemma futures_from_app first c1 c2 (task : Task) (args : Args) :
  futures_from first (c1 + c2) task args =
  futures_from first c1 task args ++ futures_from (first + c1) c2 task args.
Proof. unfold futures_from. rewrite seq_app, fmap_app. reflexivity. Qed.

Lemma futures_from_return first (task : Task) (args : Args) (vs : list Val) :
  (forall i v, vs !! i = Some v -> execute (first + i) task args = Returns v) ->
  Forall2 (fun f v => execute (fut_id f) (fut_task f) (fut_args f) = Returns v)
    (futures_from first (length vs) task args) vs.
Proof.
  revert first. induction vs as [|v vs IH]; intros first H; simpl.
  - constructor.
  - rewrite futures_from_S. constructor.
    + simpl. rewrite <- (Nat.add_0_r first). apply H. reflexivity.
    + apply IH. intros i w Hi. rewrite Nat.add_succ_comm. apply H. exact Hi.
Qed.

Lemma futures_from_same_task first count (task : Task) (args : Args) :
  Forall (fun f => fut_task f = task /\ fut_args f = args)
    (futures_from first count task args).
Proof.
  unfold futures_from. apply Forall_fmap, Forall_forall. intros k _. split; reflexivity.
Qed.

Lemma init_live (workers : Z) :
  (1 <= workers < INT_MAX)%Z ->
  exists self : t Task Args,
    init workers = Returns self /\ n_workers self = workers /\
    shutdown_thread (mpi_pool self) = false /\ work_items (mpi_pool self) = [].
Proof.
  intros H. unfold init, ProcessPoolExecutor_new.
  destruct (Z.leb_spec workers 0) as [Hle|Hgt]; [lia|].
  destruct (Z.ltb_spec INT_MAX (workers + 1)) as [Hbig|Hfit]; [lia|].
  eexists. repeat split.
Qed.

(** C6. On a live session of [N >= 1] workers, [submit(task)] returns [N]
    handles, all of them for the task and arguments given, numbered in
    submission order; and when each of the [N] jobs returns, [submit_sync(task)]
    returns the [N] values in that order, having waited on each future once. *)
Theorem submit_broadcasts (self : t Task Args) (N : Z) task args (vs : list Val) :
  (1 <= N)%Z ->
  n_workers self = N ->
  shutdown_thread (mpi_pool self) = false ->
  let first := length (work_items (mpi_pool self)) in
  let fs := futures_from first (Z.to_nat N) task args in
  (submit task args self = (Returns fs, submitted fs self) /\
   Z.of_nat (length fs) = N /\
   Forall (fun f => fut_task f = task /\ fut_args f = args) fs /\
   fut_id <$> fs = seq first (Z.to_nat N))
  /\
  (Z.of_nat (length vs) = N ->
   (forall i v, vs !! i = Some v -> execute (first + i) task args = Returns v) ->
   submit_sync execute task args self =
     (Returns vs, waited (seq first (Z.to_nat N)) (submitted fs self))).
Proof.
  intros HN Hn Hlive first fs. split.
  - split; [|split; [|split]].
    + unfold submit. rewrite comprehension_pool_submit by exact Hlive.
      simpl. rewrite length_range, Hn. reflexivity.
    + unfold fs. rewrite length_futures_from. lia.
    + apply futures_from_same_task.
    + apply fut_id_futures_from.
  - intros Hlen Hret.
    unfold submit_sync, bind. rewrite comprehension_pool_submit by exact Hlive.
    simpl. rewrite length_range, Hn. fold first. fold fs.
    assert (Hvs : Z.to_nat N = length vs) by lia.
    rewrite (comprehension_result_all fs vs).
    + unfold fs. rewrite fut_id_futures_from. reflexivity.
    + unfold fs. rewrite Hvs. apply futures_from_return. exact Hret.
Qed.

(** C1, as the code has it.  When the jobs of the first [k] futures return
    and the job of the next one raises, [submit_sync] raises that exception:
    all [n_workers] jobs have been submitted, [result()] has been called on
    the first [k + 1] futures only, and the values the first [k] returned are
    not handed to the caller.  The futures after the failing one are not
    waited on. *)
Theorem submit_sync_first_failure (self : t Task Args) task args (k : nat)
    (vs : list Val) (e : exc) :
  shutdown_thread (mpi_pool self) = false ->
  let first := length (work_items (mpi_pool self)) in
  let N := Z.to_nat (n_workers self) in
  k < N ->
  length vs = k ->
  (forall i v, vs !! i = Some v -> execute (first + i) task args = Returns v) ->
  execute (first + k) task args = Raises e ->
  submit_sync execute task args self =
    (Raises e,
     waited (seq first (S k)) (submitted (futures_from first N task args) self))
  /\ (forall j, k < j -> first + j ∉ seq first (S k)).
Proof.
  intros Hlive first N Hk Hlen Hret Hraise. split.
  - unfold submit_sync, bind. rewrite comprehension_pool_submit by exact Hlive.
    cbv beta match zeta. rewrite length_range. fold first. fold N.
    set (fs := futures_from first N task args).
    assert (Hsplit : fs =
              futures_from first k task args ++
              {| fut_id := first + k; fut_task := task; fut_args := args |}
                :: futures_from (S (first + k)) (N - S k) task args).
    { unfold fs. replace N with (k + S (N - S k)) at 1 by lia.
      rewrite futures_from_app, futures_from_S. reflexivity. }
    rewrite Hsplit at 1.
    rewrite (comprehension_result_stops _ _ _ vs).
    + cbn [fut_id fut_task fut_args]. rewrite Hraise. f_equal.
      rewrite fmap_app, fut_id_futures_from, seq_S. reflexivity.
    + rewrite <- Hlen. apply futures_from_return. exact Hret.
    + simpl. rewrite Hraise. discriminate.
  - intros j Hj Hin. apply elem_of_seq in Hin. lia.
Qed.
End PoolFacts.

Lemma submit_broadcasts_witness :
  ProcessPoolExecutorSession.submit tt tt Examples.pool3 =
    (Returns (ProcessPoolExecutorSession.futures_from 0 3 tt tt),
     ProcessPoolExecutorSession.submitted
       (ProcessPoolExecutorSession.futures_from 0 3 tt tt) Examples.pool3)
  /\
  ProcessPoolExecutorSession.submit_sync Examples.all_succeed tt tt Examples.pool3 =
    (Returns [0; 10; 20],
     ProcessPoolExecutorSession.waited [0; 1; 2]
       (ProcessPoolExecutorSession.submitted
          (ProcessPoolExecutorSession.futures_from 0 3 tt tt) Examples.pool3)).
Proof.
  assert (H1 : (1 <= 3)%Z) by lia.
  assert (H2 : ProcessPoolExecutorSession.n_workers Examples.pool3 = 3%Z)
    by reflexivity.
  assert (H3 : ProcessPoolExecutorSession.shutdown_thread
                 (ProcessPoolExecutorSession.mpi_pool Examples.pool3) = false)
    by reflexivity.
  pose proof (submit_broadcasts Examples.all_succeed Examples.pool3 3 tt tt
                [0; 10; 20] H1 H2 H3) as [[Hs _] Hsync].
  split.
  - exact Hs.
  - apply Hsync.
    + reflexivity.
    + intros [|[|[|i]]] v Hv; simpl in Hv; inversion Hv; reflexivity.
Defined.

(** C1 as stated fails: with three workers of which the second raises,
    [submit_sync] reports that failure but never waits on the third
    future. *)
Lemma submit_sync_leaves_futures_unawaited :
  (ProcessPoolExecutorSession.submit_sync Examples.second_fails tt tt
     Examples.pool3).1 = Raises Examples.boom
  /\
  ~ (forall k, k < 3 ->
       k ∈ ProcessPoolExecutorSession.awaited
             (ProcessPoolExecutorSession.mpi_pool
                (ProcessPoolExecutorSession.submit_sync Examples.second_fails
                   tt tt Examples.pool3).2)).
Proof.
  split.
  - reflexivity.
  - intros H. specialize (H 2 ltac:(lia)).
    apply list_elem_of_In in H. vm_compute in H.
    destruct H as [H|[H|[]]]; discriminate.
Qed.

Lemma submit_sync_first_failure_witness :
  ProcessPoolExecutorSession.submit_sync Examples.second_fails tt tt
    Examples.pool3 =
    (Raises Examples.boom,
     ProcessPoolExecutorSession.waited [0; 1]
       (ProcessPoolExecutorSession.submitted
          (ProcessPoolExecutorSession.futures_from 0 3 tt tt) Examples.pool3)).
Proof.
  assert (H1 : ProcessPoolExecutorSession.shutdown_thread
                 (ProcessPoolExecutorSession.mpi_pool Examples.pool3) = false)
    by reflexivity.
  assert (H2 : 1 < Z.to_nat (ProcessPoolExecutorSession.n_workers Examples.pool3))
    by (vm_compute; lia).
  assert (H3 : length [0] = 1) by reflexivity.
  refine (proj1 (submit_sync_first_failure Examples.second_fails Examples.pool3
                   tt tt 1 [0] Examples.boom H1 H2 H3 _ _)).
  - intros [|i] v Hv; simpl in Hv; inversion Hv; reflexivity.
  - reflexivity.
Defined.

(** ** The in-process queue *)
Section QueueFacts.
Import IntraProcessQueue.
Context {A : Type}.

Lemma TIMEOUT_MAX_fits : (TIMEOUT_MAX < float_limit)%Z.
Proof. reflexivity. Qed.

Lemma accepted_fits secs :
  (0 <= secs <= TIMEOUT_MAX)%Z ->
  (secs <? 0)%Z = false /\ fits_float secs = true /\
  (TIMEOUT_MAX <? secs)%Z = false.
Proof.
  intros H. pose proof TIMEOUT_MAX_fits as Hfit. unfold fits_float.
  repeat split.
  - apply Z.ltb_ge. lia.
  - apply Z.ltb_lt. lia.
  - apply Z.ltb_ge. lia.
Qed.

Lemma get_oldest timeout (item : A) q :
  accepted timeout ->
  get timeout {| queue := item :: q |} = (Returns item, {| queue := q |}).
Proof.
  intros Hok. unfold get, on_queue, Queue_get. simpl.
  destruct timeout as [secs|]; [|reflexivity].
  destruct (accepted_fits secs (Hok secs eq_refl)) as (-> & -> & _).
  reflexivity.
Qed.

Lemma get_empty_times_out secs :
  (0 <= secs <= TIMEOUT_MAX)%Z ->
  get (Some secs) (init (A:=A)) = (Raises (Exc queue_Empty ""), init).
Proof.
  intros Hok. unfold get, on_queue, Queue_get, init. simpl.
  destruct (accepted_fits secs Hok) as (-> & -> & ->). reflexivity.
Qed.

Lemma get_empty_never_returns timeout (self : t A) :
  queue self = [] -> forall item self', get timeout self <> (Returns item, self').
Proof.
  intros Hq item self'. unfold get, on_queue, Queue_get. rewrite Hq.
  destruct timeout as [secs|];
    [destruct (secs <? 0)%Z; [|destruct (fits_float secs);
                                [destruct (TIMEOUT_MAX <? secs)%Z|]]|];
    discriminate.
Qed.

(** A [get] either returns the oldest item, or ends otherwise and leaves
    the queue as it was. *)
Lemma get_cases timeout (self : t A) :
  (exists item q,
     queue self = item :: q /\
     get timeout self = (Returns item, {| queue := q |})) \/
  (exists r, (forall item, r <> Returns item) /\ get timeout self = (r, self)).
Proof.
  destruct self as [q]. unfold get, on_queue, Queue_get. simpl.
  destruct timeout as [secs|].
  - destruct (secs <? 0)%Z; [right; eexists; split; [|reflexivity]; discriminate|].
    destruct (fits_float secs); simpl;
      [|right; eexists; split; [|reflexivity]; discriminate].
    destruct q as [|item q].
    + destruct (TIMEOUT_MAX <? secs)%Z;
        right; eexists; (split; [|reflexivity]); discriminate.
    + left. eauto.
  - destruct q as [|item q].
    + right. eexists. split; [|reflexivity]. discriminate.
    + left. eauto.
Qed.

(** What [poll] does to a queue that holds something: the oldest item goes
    to the back. *)
Lemma poll_rotates timeout (item : A) q :
  accepted timeout ->
  poll timeout {| queue := item :: q |} =
    (Returns true, {| queue := q ++ [item] |}).
Proof.
  intros Hok. unfold poll, try_except, bind.
  change (on_queue (Queue_get timeout)) with (get (A:=A) timeout).
  rewrite (get_oldest timeout item q Hok). reflexivity.
Qed.

Lemma poll_empty_times_out secs :
  (0 <= secs <= TIMEOUT_MAX)%Z ->
  poll (Some secs) (init (A:=A)) = (Returns false, init).
Proof.
  intros Hok. unfold poll, try_except, bind.
  change (on_queue (Queue_get (Some secs))) with (get (A:=A) (Some secs)).
  rewrite (get_empty_times_out secs Hok). reflexivity.
Qed.

Lemma poll_keeps_single timeout (item : A) :
  accepted timeout ->
  poll timeout {| queue := [item] |} = (Returns true, {| queue := [item] |}).
Proof. intros Hok. apply (poll_rotates timeout item [] Hok). Qed.

(** Without [poll], delivery is strictly first-in first-out. *)
Lemma run_without_poll_fifo (ops : list (op A)) (self : t A) :
  forallb (fun o => negb (is_poll o)) ops = true ->
  strict_fifo (queue self) (run ops self).1.
Proof.
  revert self. induction ops as [|o ops IH]; intros self Hnp; simpl.
  - exact I.
  - simpl in Hnp. apply andb_true_iff in Hnp as [Ho Hnp].
    destruct o as [obj|timeout|timeout|]; simpl in Ho; try discriminate.
    + simpl. specialize (IH {| queue := queue self ++ [obj] |} Hnp).
      destruct (run ops {| queue := queue self ++ [obj] |}) as [es self''].
      simpl in *. exact IH.
    + unfold call.
      destruct (get_cases timeout self) as [(item & q & Hq & ->)|(r & Hr & ->)].
      * cbn [blocked]. specialize (IH {| queue := q |} Hnp).
        destruct (run ops {| queue := q |}) as [es self''].
        rewrite Hq. simpl in *. split; [reflexivity|exact IH].
      * specialize (IH self Hnp).
        destruct r as [item| |]; [exfalso; exact (Hr item eq_refl)| |].
        -- cbn [blocked]. destruct (run ops self) as [es self'']. exact IH.
        -- exact I.
    + simpl. specialize (IH self Hnp).
      destruct (run ops self); exact IH.
Qed.

(** [close] changes nothing, so closing before a run only adds the event
    of the call. *)
Lemma run_close (ops : list (op A)) (self : t A) :
  run (Close :: ops) self =
    (DidClose (Returns tt) :: (run ops self).1, (run ops self).2).
Proof. simpl. destruct (run ops self). reflexivity. Qed.

(** C8, as the code has it.  [close()] on the in-process queue returns
    without changing the queue, so a second [close()] has no further effect
    either, and every later [put], [get] or [poll] ends exactly as it would
    have without the [close()]: a [get] on the empty queue still times out
    with [queue.Empty] or, without a timeout, waits for ever.  There is no
    closed state. *)
Theorem close_changes_nothing (self : t A) :
  close self = (Returns tt, self) /\
  close (close self).2 = (Returns tt, self) /\
  (forall timeout, get timeout (close self).2 = get timeout self) /\
  (forall timeout, poll timeout (close self).2 = poll timeout self) /\
  (forall obj, put obj (close self).2 = put obj self) /\
  (forall ops, (run (Close :: ops) self).2 = (run ops self).2 /\
               received (run (Close :: ops) self).1 = received (run ops self).1).
Proof.
  repeat split.
  all: intros; rewrite run_close; reflexivity.
Qed.
End QueueFacts.

(** C2 on the queue holding 1 then 2.  [poll()] returns [True] and leaves
    the queue holding 2 then 1: two [get()] calls return 1, 2 without the
    [poll()] and 2, 1 after it. *)
Theorem poll_reorders_two_items :
  IntraProcessQueue.poll None Examples.two_items =
    (Returns true, {| IntraProcessQueue.queue := [2; 1] |})
  /\
  IntraProcessQueue.received
    (IntraProcessQueue.run
       [IntraProcessQueue.Get None; IntraProcessQueue.Get None]
       Examples.two_items).1 = [1; 2]
  /\
  IntraProcessQueue.received
    (IntraProcessQueue.run
       [IntraProcessQueue.Poll None; IntraProcessQueue.Get None;
        IntraProcessQueue.Get None]
       Examples.two_items).1 = [2; 1].
Proof. repeat split. Qed.

(** C3 on the calls put(1), put(2), poll(0), get(0) made on a new queue.
    The [get] returns 2 although 1 is the oldest item not yet consumed, so
    the run is not first-in first-out. *)
Theorem poll_breaks_fifo :
  (IntraProcessQueue.run
     [IntraProcessQueue.Put 1; IntraProcessQueue.Put 2;
      IntraProcessQueue.Poll (Some 0%Z); IntraProcessQueue.Get (Some 0%Z)]
     IntraProcessQueue.init).1 =
    [IntraProcessQueue.DidPut 1 (Returns tt);
     IntraProcessQueue.DidPut 2 (Returns tt);
     IntraProcessQueue.DidPoll (Some 0%Z) (Returns true);
     IntraProcessQueue.DidGet (Some 0%Z) (Returns 2)]
  /\
  ~ IntraProcessQueue.strict_fifo []
      (IntraProcessQueue.run
         [IntraProcessQueue.Put 1; IntraProcessQueue.Put 2;
          IntraProcessQueue.Poll (Some 0%Z); IntraProcessQueue.Get (Some 0%Z)]
         IntraProcessQueue.init).1.
Proof.
  split.
  - reflexivity.
  - simpl. intros [H _]. discriminate.
Qed.

(** C7 on a new, empty queue.  [poll()] without a timeout never returns. *)
Theorem poll_without_timeout_blocks :
  IntraProcessQueue.poll None (IntraProcessQueue.init (A:=nat)) =
    (Blocks, IntraProcessQueue.init).
Proof. reflexivity. Qed.

(** C8 as stated fails: after [close()] a [get] on the empty queue ends as
    on a queue that was never closed, with [queue.Empty] once the timeout
    has passed, and without a timeout it never returns. *)
Lemma get_after_close_is_plain_timeout :
  let closed := (IntraProcessQueue.close (IntraProcessQueue.init (A:=nat))).2 in
  IntraProcessQueue.get (Some 1%Z) closed =
    IntraProcessQueue.get (Some 1%Z) IntraProcessQueue.init
  /\ (IntraProcessQueue.get (Some 1%Z) closed).1 = Raises (Exc queue_Empty "")
  /\ (IntraProcessQueue.get None closed).1 = Blocks.
Proof. repeat split. Qed.

(** ** The NamedTuple value types *)

(** C4 as stated fails: a [WorkerCommIpcAddrs] whose five addresses are all
    the empty string is constructed. *)
Lemma WorkerCommIpcAddrs_accepts_empty_addresses :
  Forall (fun v => v = PyStr "") Examples.five_empty /\
  nt_new WorkerCommIpcAddrs Examples.five_empty =
    Returns (PyNamedTuple WorkerCommIpcAddrs Examples.five_empty).
Proof.
  split.
  - repeat constructor.
  - reflexivity.
Qed.

(** C4, as the code has it.  Calling [WorkerCommIpcAddrs] with five address
    strings, empty or not, returns a tuple whose five fields read back the
    strings given; the call fails exactly when the number of arguments is
    not five. *)
Theorem WorkerCommIpcAddrs_new_total (a b c d e : string) (args : list pyval) :
  let obj :=
    PyNamedTuple WorkerCommIpcAddrs [PyStr a; PyStr b; PyStr c; PyStr d; PyStr e] in
  nt_new WorkerCommIpcAddrs [PyStr a; PyStr b; PyStr c; PyStr d; PyStr e] =
    Returns obj /\
  getattr obj "request_queue_addr" = Returns (PyStr a) /\
  getattr obj "request_error_queue_addr" = Returns (PyStr b) /\
  getattr obj "result_queue_addr" = Returns (PyStr c) /\
  getattr obj "stats_queue_addr" = Returns (PyStr d) /\
  getattr obj "kv_cache_events_queue_addr" = Returns (PyStr e) /\
  (length args = 5 ->
   nt_new WorkerCommIpcAddrs args = Returns (PyNamedTuple WorkerCommIpcAddrs args)) /\
  (length args <> 5 ->
   exists msg, nt_new WorkerCommIpcAddrs args = Raises (Exc TypeError msg)).
Proof.
  repeat split.
  - intros Hlen. unfold nt_new. simpl. rewrite Hlen. simpl.
    rewrite app_nil_r. reflexivity.
  - intros Hlen. unfold nt_new. simpl.
    destruct (decide (5 < length args)); [eauto|].
    destruct (decide (length args < 5)); [eauto|]. lia.
Qed.

Lemma WorkerCommIpcAddrs_new_total_witness :
  nt_new WorkerCommIpcAddrs Examples.five_empty =
    Returns (PyNamedTuple WorkerCommIpcAddrs Examples.five_empty)
  /\ exists msg, nt_new WorkerCommIpcAddrs [PyStr "ipc:///a"] =
                   Raises (Exc TypeError msg).
Proof.
  split.
  - apply (WorkerCommIpcAddrs_new_total "" "" "" "" "" Examples.five_empty).
    reflexivity.
  - apply (WorkerCommIpcAddrs_new_total "" "" "" "" "" [PyStr "ipc:///a"]).
    simpl. lia.
Defined.








(** ** Error tiers *)

(** C10. [RequestError] derives from [RuntimeError] and so from
    [Exception]; a [RequestError] instance held in the [error] field of an
    [ExecutorResponse] is an [Exception] and not a [str], and the response
    is classified as service-fatal, not as a per-request error. *)
Theorem RequestError_is_service_fatal (items : list pyval) (msg : string) :
  let resp := PyNamedTuple ExecutorResponse items in
  let err := PyExc (Exc RequestError msg) in
  getattr resp "error" = Returns err ->
  base_of RequestError = Some RuntimeError /\
  issubclass RequestError RuntimeError = true /\
  issubclass RequestError Exception = true /\
  isinstance_Exception err = true /\
  isinstance_str err = false /\
  classify_response resp = ServiceFatal /\
  classify_response resp <> PerRequest.
Proof.
  intros resp err Herr.
  assert (Hc : classify_response resp = ServiceFatal).
  { unfold classify_response, resp. fold resp. rewrite Herr. reflexivity. }
  repeat split; try exact Hc. rewrite Hc. discriminate.
Qed.

Lemma RequestError_is_service_fatal_witness :
  classify_response Examples.failed_response = ServiceFatal.
Proof.
  apply (RequestError_is_service_fatal
           [PyInt 7; PyNone; PyNone; PyNone; PyNone; PyExc Examples.boom;
            PyNone; PyNone]
           "boom").
  reflexivity.
Defined.

(** * Further properties *)

(** ** Detection of the event loop *)
Section EventLoopFacts.
Context {World Loop : Type}.
Variable get_running_loop : M World Loop.

(** X2. [has_event_loop] answers [True] exactly when
    [asyncio.get_running_loop()] returns and [False] exactly when it raises
    [RuntimeError] or a subclass of it; an exception that leaves
    [has_event_loop] is never a [RuntimeError]. *)
Theorem has_event_loop_answers (w : World) :
  ((has_event_loop get_running_loop w).1 = Returns true <->
   exists loop, (get_running_loop w).1 = Returns loop) /\
  ((has_event_loop get_running_loop w).1 = Returns false <->
   exists e, (get_running_loop w).1 = Raises e /\
             issubclass (exc_type e) RuntimeError = true) /\
  (forall e, (has_event_loop get_running_loop w).1 = Raises e ->
             (get_running_loop w).1 = Raises e /\
             issubclass (exc_type e) RuntimeError = false).
Proof.
  unfold has_event_loop, bind, try_except, ret.
  destruct (get_running_loop w) as [[loop|e|] w'] eqn:E; simpl.
  - repeat split; try (intros; eauto; discriminate).
    + intros [e [H _]]. discriminate.
  - destruct (issubclass (exc_type e) RuntimeError) eqn:Hsub; simpl.
    + repeat split; try (intros; discriminate).
      * intros [loop H]. discriminate.
      * intros _. eauto.
    + repeat split; try (intros; discriminate).
      * intros [loop H]. discriminate.
      * intros [e' [H H']]. congruence.
      * congruence.
      * congruence.
  - repeat split; try (intros; discriminate).
    + intros [loop H]. discriminate.
    + intros [e [H _]]. discriminate.
Qed.
End EventLoopFacts.

(** ** More on the in-process queue *)
Section QueueMore.
Import IntraProcessQueue.
Context {A : Type}.

Lemma put_items_cons (e : event A) es :
  put_items (e :: es) = put_items [e] ++ put_items es.
Proof. destruct e as [obj [| |]| | |]; reflexivity. Qed.

Lemma received_cons (e : event A) es :
  received (e :: es) = received [e] ++ received es.
Proof. destruct e as [|timeout [| |]| |]; reflexivity. Qed.

(** A [poll] either answers [True] and moves the oldest item to the back,
    or ends otherwise and leaves the queue as it was. *)
Lemma poll_cases timeout (self : t A) :
  (exists item q,
     queue self = item :: q /\
     poll timeout self = (Returns true, {| queue := q ++ [item] |})) \/
  (exists r, r <> Returns true /\ poll timeout self = (r, self)).
Proof.
  unfold poll, try_except, bind.
  change (on_queue (Queue_get timeout)) with (get (A:=A) timeout).
  destruct (get_cases timeout self) as [(item & q & Hq & ->)|(r & Hr & ->)].
  - left. exists item, q. split; [exact Hq|reflexivity].
  - right. destruct r as [item|e|].
    + exfalso. exact (Hr item eq_refl).
    + destruct (issubclass (exc_type e) queue_Empty);
        eexists; (split; [|reflexivity]); discriminate.
    + eexists. split; [|reflexivity]. discriminate.
Qed.

(** One call neither loses nor duplicates an item. *)
Lemma call_conserves (o : op A) (self : t A) :
  queue self ++ put_items [(call o self).1] ≡ₚ
  received [(call o self).1] ++ queue (call o self).2.
Proof.
  destruct o as [obj|timeout|timeout|]; unfold call.
  - destruct self as [q]. reflexivity.
  - destruct (get_cases timeout self) as [(item & q & Hq & ->)|(r & Hr & ->)].
    + rewrite Hq. simpl. rewrite app_nil_r. reflexivity.
    + destruct r as [item| |]; [exfalso; exact (Hr item eq_refl)| |];
        simpl; rewrite app_nil_r; reflexivity.
  - destruct (poll_cases timeout self) as [(item & q & Hq & ->)|(r & Hr & ->)].
    + rewrite Hq. simpl. rewrite app_nil_r. apply Permutation_cons_append.
    + simpl. rewrite app_nil_r. reflexivity.
  - simpl. rewrite app_nil_r. reflexivity.
Qed.

(** X3. Over any run of [put], [get], [poll] and [close] calls, the items
    in the queue at the start together with the items put are, up to order,
    the items received together with the items left in the queue: nothing is
    lost and nothing is delivered twice. *)
Theorem run_conserves_items (ops : list (op A)) (self : t A) :
  queue self ++ put_items (run ops self).1 ≡ₚ
  received (run ops self).1 ++ queue (run ops self).2.
Proof.
  revert self. induction ops as [|o ops IH]; intros self.
  - simpl. rewrite app_nil_r. reflexivity.
  - cbn [run]. pose proof (call_conserves o self) as Hcall.
    destruct (call o self) as [e self1]. cbn [fst snd] in Hcall.
    destruct (blocked e).
    + exact Hcall.
    + specialize (IH self1). destruct (run ops self1) as [es self2].
      cbn [fst snd] in *. rewrite put_items_cons, received_cons.
      rewrite app_assoc, Hcall, <- !app_assoc.
      apply Permutation_app_head. exact IH.
Qed.

(** X4. [poll] keeps the items of the queue, up to order, whatever the
    timeout and whatever the state, and keeps the queue as it is whenever it
    does not answer [True]. *)
Theorem poll_keeps_items (timeout : option Z) (self : t A) :
  queue (poll timeout self).2 ≡ₚ queue self /\
  ((poll timeout self).1 <> Returns true -> (poll timeout self).2 = self).
Proof.
  destruct (poll_cases timeout self) as [(item & q & Hq & ->)|(r & Hr & ->)].
  - rewrite Hq. simpl. split.
    + symmetry. apply Permutation_cons_append.
    + congruence.
  - simpl. split; reflexivity.
Qed.

(** X5. [queue.Empty] never leaves [poll].  When [poll] raises, the queue
    is as it was and the timeout was one that [queue.Queue.get] refuses:
    negative ([ValueError]) or beyond [TIMEOUT_MAX] ([OverflowError]). *)
Theorem poll_raises_only_on_refused_timeout (timeout : option Z) (self : t A)
    (e : exc) :
  (poll timeout self).1 = Raises e ->
  issubclass (exc_type e) queue_Empty = false /\
  (poll timeout self).2 = self /\
  exists secs,
    timeout = Some secs /\
    ((secs < 0)%Z /\ exc_type e = ValueError \/
     (TIMEOUT_MAX < secs)%Z /\ exc_type e = OverflowError).
Proof.
  destruct self as [q]. pose proof TIMEOUT_MAX_fits as Hfit.
  unfold poll, try_except, bind, on_queue, Queue_get, Queue_put, ret,
    fits_float.
  cbn [queue].
  destruct timeout as [secs|].
  - destruct (Z.ltb_spec secs 0) as [Hneg|Hpos].
    + simpl. intros [= <-]. repeat split. exists secs.
      split; [reflexivity|]. left. split; [exact Hneg|reflexivity].
    + destruct (Z.ltb_spec secs float_limit) as [Hflo|Hbig]; simpl.
      * destruct q as [|item q]; [|discriminate].
        destruct (Z.ltb_spec TIMEOUT_MAX secs) as [Hlong|Hshort]; simpl;
          [|discriminate].
        intros [= <-]. repeat split. exists secs.
        split; [reflexivity|]. right. split; [exact Hlong|reflexivity].
      * intros [= <-]. repeat split. exists secs.
        split; [reflexivity|]. right. split; [lia|reflexivity].
  - destruct q as [|item q]; simpl; discriminate.
Qed.

(** X6. With a timeout from 0 to [TIMEOUT_MAX], [poll] returns whether the
    queue holds an item, and it leaves the number of items unchanged. *)
Theorem poll_reports_availability (secs : Z) (self : t A) :
  (0 <= secs <= TIMEOUT_MAX)%Z ->
  (poll (Some secs) self).1 =
    Returns (match queue self with [] => false | _ :: _ => true end) /\
  length (queue (poll (Some secs) self).2) = length (queue self).
Proof.
  intros Hok. destruct self as [[|item q]].
  - fold (init (A:=A)). rewrite (poll_empty_times_out secs Hok). split; reflexivity.
  - rewrite poll_rotates by (intros s [= <-]; exact Hok). simpl.
    split; [reflexivity|]. rewrite length_app. simpl. lia.
Qed.

(** [k] polls move the [k] oldest items to the back, in order. *)
Lemma polls_rotate (k : nat) (timeout : option Z) (q : list A) :
  accepted timeout ->
  k <= length q ->
  (run (replicate k (Poll timeout)) {| queue := q |}).2 =
    {| queue := drop k q ++ take k q |}.
Proof.
  intros Hok. revert q. induction k as [|k IH]; intros q Hk.
  - simpl. rewrite drop_0, app_nil_r. reflexivity.
  - destruct q as [|item q]; [simpl in Hk; lia|].
    simpl in Hk.
    cbn [replicate run call]. rewrite (poll_rotates timeout item q Hok).
    cbn [blocked]. specialize (IH (q ++ [item]) ltac:(rewrite length_app; simpl; lia)).
    destruct (run (replicate k (Poll timeout)) {| queue := q ++ [item] |})
      as [es self'].
    simpl in *. rewrite IH.
    rewrite drop_app_le, take_app_le by lia.
    rewrite <- app_assoc. reflexivity.
Qed.

(** X7. With no timeout, or one from 0 to [TIMEOUT_MAX], polling a queue as
    many times as it holds items puts every item back where it was: the
    reordering caused by [poll] is a rotation. *)
Theorem polls_full_cycle (timeout : option Z) (self : t A) :
  accepted timeout ->
  (run (replicate (length (queue self)) (Poll timeout)) self).2 = self /\
  (forall k, k <= length (queue self) ->
     queue (run (replicate k (Poll timeout)) self).2 =
       drop k (queue self) ++ take k (queue self)).
Proof.
  intros Hok. destruct self as [q]. simpl. split.
  - rewrite (polls_rotate (length q) timeout q Hok) by lia.
    rewrite drop_all, firstn_all. reflexivity.
  - intros k Hk. rewrite (polls_rotate k timeout q Hok Hk). reflexivity.
Qed.

(** X8. A negative timeout makes [get] and [poll] raise [ValueError] and
    leave the queue untouched, even when an item is waiting. *)
Theorem negative_timeout_is_rejected (secs : Z) (self : t A) :
  (secs < 0)%Z ->
  get (Some secs) self =
    (Raises (Exc ValueError "'timeout' must be a non-negative number"), self) /\
  poll (Some secs) self =
    (Raises (Exc ValueError "'timeout' must be a non-negative number"), self).
Proof.
  intros Hneg. destruct self as [q].
  unfold poll, try_except, bind, get, on_queue, Queue_get. simpl.
  destruct (Z.ltb_spec secs 0); [|lia]. split; reflexivity.
Qed.
End QueueMore.

(** ** More on the process-pool session *)
Section PoolMore.
Import ProcessPoolExecutorSession.
Context {Task Args Val : Type}.
Variable execute : nat -> Task -> Args -> outcome Val.

(** A pool that has been shut down takes no job. *)
Lemma comprehension_pool_submit_shut {B} (l : list B) task args
    (self : t Task Args) :
  shutdown_thread (mpi_pool self) = true ->
  comprehension (fun _ : B => pool_submit task args) l self =
    match l with
    | [] => (Returns [], self)
    | _ :: _ =>
        (Raises (Exc RuntimeError "cannot schedule new futures after shutdown"),
         self)
    end.
Proof.
  intros Hshut. destruct l as [|x l]; simpl.
  - reflexivity.
  - unfold bind at 1. unfold pool_submit at 1. rewrite Hshut. reflexivity.
Qed.

(** Waiting on a list of futures waits on a prefix of it. *)
Lemma comprehension_result_prefix (fs : list (Future Task Args))
    (self : t Task Args) :
  exists ids,
    ids `prefix_of` (fut_id <$> fs) /\
    (comprehension (result execute) fs self).2 = waited ids self.
Proof.
  revert self. induction fs as [|f fs IH]; intros self; simpl.
  - exists []. split; [apply prefix_nil|]. rewrite waited_nil. reflexivity.
  - unfold bind at 1. unfold result at 1.
    destruct (execute (fut_id f) (fut_task f) (fut_args f)) as [v|e|].
    + unfold bind at 1.
      match goal with |- context [comprehension _ fs ?s] =>
        destruct (IH s) as [ids [Hpre Hst]];
        destruct (comprehension (result execute) fs s) as [[vs|e|] s'] eqn:E
      end; simpl in Hst; subst; simpl;
        (exists (fut_id f :: ids); split;
         [apply prefix_cons; exact Hpre
         |apply (waited_cons (fut_id f) ids self)]).
    + exists [fut_id f]. split; [apply prefix_cons, prefix_nil|reflexivity].
    + exists [fut_id f]. split; [apply prefix_cons, prefix_nil|reflexivity].
Qed.

(** What any call leaves behind: some futures added at the end of the
    pool, numbered from its size, and some of them waited on. *)
Lemma after_call_shape (c : pool_call Task Args) (self : t Task Args) :
  exists fs ids flag,
    after_call execute c self =
      {| n_workers := n_workers self;
         mpi_pool :=
           {| max_workers := max_workers (mpi_pool self);
              work_items := work_items (mpi_pool self) ++ fs;
              shutdown_thread := flag;
              awaited := awaited (mpi_pool self) ++ ids |} |} /\
    fut_id <$> fs = seq (length (work_items (mpi_pool self))) (length fs) /\
    ids `prefix_of` (fut_id <$> fs) /\
    (shutdown_thread (mpi_pool self) = true -> flag = true /\ fs = [] /\ ids = []) /\
    (c <> Shutdown -> flag = shutdown_thread (mpi_pool self)).
Proof.
  destruct self as [n [mw wi sd aw]].
  destruct c as [task args|task args|]; cbn [after_call].
  - unfold submit. destruct sd.
    + rewrite comprehension_pool_submit_shut by reflexivity.
      exists [], [], true. simpl. rewrite !app_nil_r.
      repeat split; destruct (range n); reflexivity.
    + rewrite comprehension_pool_submit by reflexivity. simpl.
      exists (futures_from (length wi) (length (range n)) task args), [], false.
      rewrite (app_nil_r aw).
      split; [reflexivity|]. rewrite fut_id_futures_from, length_futures_from.
      repeat split; try discriminate. apply prefix_nil.
  - unfold submit_sync, bind. destruct sd.
    + rewrite comprehension_pool_submit_shut by reflexivity.
      exists [], [], true. simpl. rewrite !app_nil_r.
      repeat split; destruct (range n); reflexivity.
    + rewrite comprehension_pool_submit by reflexivity. cbv beta match zeta.
      cbn [mpi_pool work_items n_workers].
      set (fs := futures_from (length wi) (length (range n)) task args).
      destruct (comprehension_result_prefix fs
                  (submitted fs
                     {| n_workers := n;
                        mpi_pool := {| max_workers := mw; work_items := wi;
                                       shutdown_thread := false;
                                       awaited := aw |} |}))
        as [ids [Hpre Hst]].
      exists fs, ids, false. rewrite Hst.
      split; [reflexivity|].
      unfold fs. rewrite fut_id_futures_from, length_futures_from.
      repeat split; try discriminate.
      unfold fs in Hpre. rewrite fut_id_futures_from in Hpre. exact Hpre.
  - exists [], [], true. simpl. rewrite !app_nil_r.
    split; [reflexivity|]. split; [reflexivity|]. split; [apply prefix_nil|].
    split; [intros _; repeat split|]. intros H. congruence.
Qed.

Lemma after_call_consistent (c : pool_call Task Args) (self : t Task Args) :
  consistent self -> consistent (after_call execute c self).
Proof.
  intros [Hnum Hwait].
  destruct (after_call_shape c self) as (fs & ids & flag & -> & Hfs & Hpre & _).
  unfold consistent. cbn [mpi_pool work_items awaited]. split.
  - rewrite fmap_app, Hnum, Hfs, length_app, seq_app. reflexivity.
  - rewrite length_app. apply Forall_app. split.
    + eapply Forall_impl; [exact Hwait|]. simpl. intros k Hk. lia.
    + destruct Hpre as [rest Hrest].
      assert (Hall : Forall (fun k => k < length (work_items (mpi_pool self)) + length fs)
                       (fut_id <$> fs)).
      { rewrite Hfs. apply Forall_forall. intros k Hk.
        apply elem_of_seq in Hk. lia. }
      rewrite Hrest in Hall. apply Forall_app in Hall as [Hall _]. exact Hall.
Qed.

(** X9. Whatever sequence of [submit], [submit_sync] and [shutdown] calls
    is made, and however the calls end, the session keeps its [n_workers],
    the futures handed out so far stay in the pool in their order, every
    future is numbered by its position (so no two handles coincide), and only
    futures the pool handed out have been waited on. *)
Theorem session_stays_consistent (cs : list (pool_call Task Args))
    (self : t Task Args) :
  consistent self ->
  consistent (after_calls execute cs self) /\
  n_workers (after_calls execute cs self) = n_workers self /\
  work_items (mpi_pool self) `prefix_of`
    work_items (mpi_pool (after_calls execute cs self)) /\
  awaited (mpi_pool self) `prefix_of`
    awaited (mpi_pool (after_calls execute cs self)) /\
  NoDup (fut_id <$> work_items (mpi_pool (after_calls execute cs self))).
Proof.
  revert self. induction cs as [|c cs IH]; intros self Hc.
  - simpl. repeat split; try apply Hc; try reflexivity.
    destruct Hc as [-> _]. apply NoDup_seq.
  - cbn [after_calls fold_left]. fold (after_calls execute cs (after_call execute c self)).
    destruct (IH (after_call execute c self) (after_call_consistent c self Hc))
      as (H1 & H2 & H3 & H4 & H5).
    destruct (after_call_shape c self) as (fs & ids & flag & Hshape & _).
    assert (Hn : n_workers (after_call execute c self) = n_workers self)
      by (rewrite Hshape; reflexivity).
    assert (Hw : work_items (mpi_pool (after_call execute c self)) =
                 work_items (mpi_pool self) ++ fs)
      by (rewrite Hshape; reflexivity).
    assert (Ha : awaited (mpi_pool (after_call execute c self)) =
                 awaited (mpi_pool self) ++ ids)
      by (rewrite Hshape; reflexivity).
    rewrite Hn in H2. rewrite Hw in H3. rewrite Ha in H4.
    split; [exact H1|]. split; [exact H2|].
    split; [|split; [|exact H5]].
    + etrans; [apply prefix_app_r; reflexivity|exact H3].
    + etrans; [apply prefix_app_r; reflexivity|exact H4].
Qed.

(** X10. Once [shutdown()] has been called, [submit] and [submit_sync] on a
    session of at least one worker raise [RuntimeError] at the first
    submission: no future is created and none is waited on. *)
Theorem submit_after_shutdown (self : t Task Args) task args :
  (1 <= n_workers self)%Z ->
  let closed := (shutdown self).2 in
  submit task args closed =
    (Raises (Exc RuntimeError "cannot schedule new futures after shutdown"),
     closed) /\
  submit_sync execute task args closed =
    (Raises (Exc RuntimeError "cannot schedule new futures after shutdown"),
     closed).
Proof.
  intros HN closed.
  assert (Hr : exists x l, range (n_workers closed) = x :: l).
  { unfold closed, shutdown, range. cbn [snd n_workers].
    destruct (Z.to_nat (n_workers self)) as [|m] eqn:E; [lia|].
    simpl. eauto. }
  destruct Hr as (x & l & Hr).
  split.
  - unfold submit. rewrite comprehension_pool_submit_shut by reflexivity.
    rewrite Hr. reflexivity.
  - unfold submit_sync, bind.
    rewrite comprehension_pool_submit_shut by reflexivity.
    rewrite Hr. reflexivity.
Qed.

(** [shutdown()] returns at once, keeps the futures and the record of the
    waits, and a second [shutdown()] changes nothing more. *)
Theorem shutdown_is_idempotent (self : t Task Args) :
  (shutdown self).1 = Returns tt /\
  shutdown (shutdown self).2 = (Returns tt, (shutdown self).2) /\
  work_items (mpi_pool (shutdown self).2) = work_items (mpi_pool self) /\
  awaited (mpi_pool (shutdown self).2) = awaited (mpi_pool self) /\
  n_workers (shutdown self).2 = n_workers self.
Proof. repeat split. Qed.

(** X12. [submit] does not wait: on a live session it returns its handles
    whatever the jobs do, also when they never finish, and the set of
    futures waited on is the same before and after. *)
Theorem submit_does_not_wait (self : t Task Args) task args :
  awaited (mpi_pool (submit task args self).2) = awaited (mpi_pool self) /\
  (submit (Task:=Task) task args self).1 <> Blocks /\
  (shutdown_thread (mpi_pool self) = false ->
   exists fs, (submit task args self).1 = Returns fs).
Proof.
  unfold submit. destruct (shutdown_thread (mpi_pool self)) eqn:Hs.
  - rewrite comprehension_pool_submit_shut by exact Hs.
    destruct (range (n_workers self)); repeat split; try discriminate.
  - rewrite comprehension_pool_submit by exact Hs. simpl.
    repeat split; try discriminate. intros _. eauto.
Qed.

(** X13. [submit_sync] waits on the futures in submission order: when the
    first [k] jobs return and the next one never finishes, the call never
    returns, whatever the later jobs do, also when one of them has raised. *)
Theorem submit_sync_hangs_on_first_unfinished (self : t Task Args) task args
    (k : nat) (vs : list Val) :
  shutdown_thread (mpi_pool self) = false ->
  let first := length (work_items (mpi_pool self)) in
  let N := Z.to_nat (n_workers self) in
  k < N ->
  length vs = k ->
  (forall i v, vs !! i = Some v -> execute (first + i) task args = Returns v) ->
  execute (first + k) task args = Blocks ->
  submit_sync execute task args self =
    (Blocks,
     waited (seq first (S k)) (submitted (futures_from first N task args) self)).
Proof.
  intros Hlive first N Hk Hlen Hret Hblock.
  unfold submit_sync, bind. rewrite comprehension_pool_submit by exact Hlive.
  cbv beta match zeta. rewrite length_range. fold first. fold N.
  set (fs := futures_from first N task args).
  assert (Hsplit : fs =
            futures_from first k task args ++
            {| fut_id := first + k; fut_task := task; fut_args := args |}
              :: futures_from (S (first + k)) (N - S k) task args).
  { unfold fs. replace N with (k + S (N - S k)) at 1 by lia.
    rewrite futures_from_app, futures_from_S. reflexivity. }
  rewrite Hsplit at 1.
  rewrite (comprehension_result_stops execute _ _ _ vs).
  - cbn [fut_id fut_task fut_args]. rewrite Hblock. f_equal.
    rewrite fmap_app, fut_id_futures_from, seq_S. reflexivity.
  - rewrite <- Hlen. apply futures_from_return. exact Hret.
  - cbn [fut_id fut_task fut_args]. rewrite Hblock. discriminate.
Qed.
End PoolMore.

(** ** More on the NamedTuple value types *)

Lemma fields_NoDup (c : nt_class) : NoDup (_fields c).
Proof. destruct c; by apply (bool_decide_unpack _). Qed.

Lemma defaults_are_None (c : nt_class) :
  Forall (fun v => v = PyNone) (_field_defaults c).
Proof. destruct c; simpl; repeat constructor. Qed.

Lemma defaults_fit (c : nt_class) :
  length (_field_defaults c) <= length (_fields c).
Proof. destruct c; simpl; lia. Qed.

Lemma field_index_lookup (fields : list string) (i : nat) (name : string) :
  NoDup fields -> fields !! i = Some name -> field_index name fields = Some i.
Proof.
  revert i. induction fields as [|f fields IH]; intros i Hnd Hi.
  - destruct i; discriminate.
  - apply NoDup_cons in Hnd as [Hf Hnd]. destruct i as [|i]; simpl in *.
    + injection Hi as ->. rewrite decide_True by reflexivity. reflexivity.
    + rewrite decide_False.
      * rewrite (IH i Hnd Hi). reflexivity.
      * intros ->. apply Hf. apply list_elem_of_lookup. eauto.
Qed.

Lemma field_index_Some (fields : list string) (i : nat) (name : string) :
  field_index name fields = Some i -> fields !! i = Some name.
Proof.
  revert i. induction fields as [|f fields IH]; intros i H; simpl in H.
  - discriminate.
  - destruct (decide (f = name)) as [->|Hne].
    + injection H as <-. reflexivity.
    + destruct (field_index name fields) as [j|] eqn:E; simpl in H; [|discriminate].
      injection H as <-. simpl. apply IH. reflexivity.
Qed.

Lemma field_index_None (fields : list string) (name : string) :
  name ∉ fields -> field_index name fields = None.
Proof.
  intros Hnot. destruct (field_index name fields) as [i|] eqn:E; [|reflexivity].
  exfalso. apply Hnot. apply list_elem_of_lookup. exists i.
  apply field_index_Some. exact E.
Qed.

(** What a successful construction returns. *)
Lemma nt_new_shape (c : nt_class) (args : list pyval) (obj : pyval) :
  nt_new c args = Returns obj ->
  exists rest,
    obj = PyNamedTuple c (args ++ rest) /\
    length (args ++ rest) = length (_fields c) /\
    Forall (fun v => v = PyNone) rest.
Proof.
  unfold nt_new. intros H.
  destruct (decide (length (_fields c) < length args)); [discriminate|].
  destruct (decide (length args < length (_fields c) - length (_field_defaults c)));
    [discriminate|].
  injection H as <-. eexists. split; [reflexivity|]. split.
  - rewrite length_app, length_drop. pose proof (defaults_fit c). lia.
  - apply Forall_drop, defaults_are_None.
Qed.

(** X14. Construction and field access round-trip for the four classes: the
    value built from [args] reads back, under the name of its [i]-th field,
    the [i]-th argument. *)
Theorem nt_new_getattr (c : nt_class) (args : list pyval) (obj : pyval)
    (i : nat) (name : string) (v : pyval) :
  nt_new c args = Returns obj ->
  _fields c !! i = Some name ->
  args !! i = Some v ->
  getattr obj name = Returns v.
Proof.
  intros Hnew Hname Harg.
  destruct (nt_new_shape c args obj Hnew) as (rest & -> & _ & _).
  unfold getattr. rewrite (field_index_lookup _ i name (fields_NoDup c) Hname).
  rewrite (lookup_app_l_Some _ _ _ _ Harg). reflexivity.
Qed.

(** X15. How many arguments each class takes: [ExecutorResponseTensors] and
    [WorkerCommIpcAddrs] exactly five, [ErrorResponse] exactly three,
    [ExecutorResponse] six to eight; any other number makes the call raise
    [TypeError].  A field of [ExecutorResponse] left out ([timestamp],
    [disaggregated_params]) reads as [None]. *)
Theorem nt_new_arity (c : nt_class) (args : list pyval) :
  let least := match c with
               | ExecutorResponseTensors | WorkerCommIpcAddrs => 5
               | ErrorResponse => 3
               | ExecutorResponse => 6
               end in
  let most := match c with
              | ExecutorResponseTensors | WorkerCommIpcAddrs => 5
              | ErrorResponse => 3
              | ExecutorResponse => 8
              end in
  ((exists obj, nt_new c args = Returns obj) <->
   least <= length args <= most) /\
  (~ least <= length args <= most ->
   exists msg, nt_new c args = Raises (Exc TypeError msg)) /\
  (forall obj i name,
     nt_new c args = Returns obj ->
     _fields c !! i = Some name ->
     length args <= i ->
     getattr obj name = Returns PyNone).
Proof.
  intros least most. split; [|split].
  - unfold nt_new. split.
    + intros [obj H]. destruct c; simpl in *;
        repeat (case_decide; [discriminate|]); lia.
    + intros H. destruct c; simpl in *;
        (rewrite decide_False by lia); (rewrite decide_False by lia); eauto.
  - intros H. unfold nt_new.
    destruct (decide (length (_fields c) < length args)); [eauto|].
    destruct (decide (length args < length (_fields c) - length (_field_defaults c)));
      [eauto|].
    exfalso. apply H. destruct c; simpl in *; lia.
  - intros obj i name Hnew Hname Hi.
    destruct (nt_new_shape c args obj Hnew) as (rest & -> & Hlen & Hnone).
    unfold getattr. rewrite (field_index_lookup _ i name (fields_NoDup c) Hname).
    assert (Hlt : i < length (args ++ rest)).
    { rewrite Hlen. apply lookup_lt_Some in Hname. exact Hname. }
    destruct (lookup_lt_is_Some_2 _ _ Hlt) as [v Hv]. rewrite Hv.
    rewrite lookup_app_r in Hv by exact Hi.
    rewrite Forall_forall in Hnone.
    rewrite (Hnone v); [reflexivity|].
    apply list_elem_of_lookup. eauto.
Qed.

(** X16. On a constructed value every declared field can be read: it
    shows the argument given at its position, or [None] when that argument
    was left out. *)
Theorem getattr_declared_fields (c : nt_class) (args : list pyval) (obj : pyval)
    (name : string) :
  nt_new c args = Returns obj ->
  name ∈ _fields c ->
  exists i,
    _fields c !! i = Some name /\
    getattr obj name = Returns (default PyNone (args !! i)).
Proof.
  intros Hnew Hin. apply list_elem_of_lookup in Hin as [i Hi].
  exists i. split; [exact Hi|].
  destruct (args !! i) as [v|] eqn:Harg; simpl.
  - apply (nt_new_getattr c args obj i name v Hnew Hi Harg).
  - apply (proj2 (proj2 (nt_new_arity c args)) obj i name Hnew Hi).
    apply lookup_ge_None. exact Harg.
Qed.

(** X17. [_replace] on a constructed value, given a declared field name,
    builds a value of the same class that reads the new value under that
    field and the old values under every other declared field; given a name
    that is not a field it raises [ValueError]. *)
Theorem replace_getattr (c : nt_class) (args : list pyval) (obj : pyval)
    (name : string) (v : pyval) :
  nt_new c args = Returns obj ->
  (name ∈ _fields c ->
   exists items',
     _replace obj name v = Returns (PyNamedTuple c items') /\
     getattr (PyNamedTuple c items') name = Returns v /\
     (forall other, other ∈ _fields c -> other <> name ->
        getattr (PyNamedTuple c items') other = getattr obj other)) /\
  (name ∉ _fields c ->
   exists msg, _replace obj name v = Raises (Exc ValueError msg)).
Proof.
  intros Hnew.
  destruct (nt_new_shape c args obj Hnew) as (rest & -> & Hlen & _).
  set (items := args ++ rest) in *. split.
  - intros Hin. apply list_elem_of_lookup in Hin as [i Hi].
    pose proof (field_index_lookup _ i name (fields_NoDup c) Hi) as Hidx.
    assert (Hlt : i < length items).
    { rewrite Hlen. apply lookup_lt_Some in Hi. exact Hi. }
    exists (<[i := v]> items). unfold _replace, getattr. rewrite Hidx.
    split; [reflexivity|]. split.
    + rewrite list_lookup_insert_eq by exact Hlt. reflexivity.
    + intros other Hdecl Hother.
      apply list_elem_of_lookup in Hdecl as [j Hj].
      rewrite (field_index_lookup _ j other (fields_NoDup c) Hj).
      assert (Hij : i <> j) by (intros <-; congruence).
      rewrite list_lookup_insert_ne by exact Hij. reflexivity.
  - intros Hnot. unfold _replace. rewrite (field_index_None _ name Hnot).
    eauto.
Qed.

(** ** Order of delivery without [poll] *)
Section QueueOrder.
Import IntraProcessQueue.
Context {A : Type}.

Lemma call_keeps_order (o : op A) (self : t A) :
  is_poll o = false ->
  queue self ++ put_items [(call o self).1] =
  received [(call o self).1] ++ queue (call o self).2.
Proof.
  intros Hnp.
  destruct o as [obj|timeout|timeout|]; simpl in Hnp; try discriminate;
    unfold call.
  - destruct self as [q]. reflexivity.
  - destruct (get_cases timeout self) as [(item & q & Hq & ->)|(r & Hr & ->)].
    + rewrite Hq. simpl. rewrite app_nil_r. reflexivity.
    + destruct r as [item| |]; [exfalso; exact (Hr item eq_refl)| |];
        simpl; rewrite app_nil_r; reflexivity.
  - simpl. rewrite app_nil_r. reflexivity.
Qed.

(** X11. In a run without [poll], the items come out in exactly the order
    they went in: the items received, followed by the items left in the
    queue, are the items the queue held at the start followed by the items
    put, and every [get] returned the oldest item then in the queue. *)
Theorem run_without_poll_keeps_order (ops : list (op A)) (self : t A) :
  forallb (fun o => negb (is_poll o)) ops = true ->
  received (run ops self).1 ++ queue (run ops self).2 =
    queue self ++ put_items (run ops self).1 /\
  strict_fifo (queue self) (run ops self).1.
Proof.
  intros Hnp. split; [|apply run_without_poll_fifo; exact Hnp].
  revert self. induction ops as [|o ops IH]; intros self.
  - simpl. rewrite app_nil_r. reflexivity.
  - simpl in Hnp. apply andb_true_iff in Hnp as [Ho Hnp].
    apply negb_true_iff in Ho.
    cbn [run]. pose proof (call_keeps_order o self Ho) as Hcall.
    destruct (call o self) as [e self1]. cbn [fst snd] in Hcall.
    destruct (blocked e).
    + symmetry. exact Hcall.
    + specialize (IH Hnp self1). destruct (run ops self1) as [es self2].
      cbn [fst snd] in *. rewrite put_items_cons, received_cons.
      rewrite app_assoc, Hcall, <- !app_assoc, IH. reflexivity.
Qed.
End QueueOrder.

(** ** The properties on concrete inputs *)

Lemma has_event_loop_answers_witness :
  (has_event_loop MoreExamples.no_loop tt).1 = Returns false.
Proof.
  apply (proj2 (proj1 (proj2 (has_event_loop_answers MoreExamples.no_loop tt)))).
  exists (Exc RuntimeError "no running event loop").
  split; reflexivity.
Defined.

Lemma poll_keeps_items_witness :
  (IntraProcessQueue.poll (Some 0%Z) (IntraProcessQueue.init (A:=nat))).2 =
    IntraProcessQueue.init.
Proof.
  apply (proj2 (poll_keeps_items (Some 0%Z) (IntraProcessQueue.init (A:=nat)))).
  simpl. discriminate.
Defined.

Lemma poll_raises_only_on_refused_timeout_witness :
  issubclass OverflowError queue_Empty = false /\
  (IntraProcessQueue.poll (Some (10 ^ 10)%Z)
     (IntraProcessQueue.init (A:=nat))).2 = IntraProcessQueue.init.
Proof.
  pose proof (poll_raises_only_on_refused_timeout (Some (10 ^ 10)%Z)
                (IntraProcessQueue.init (A:=nat))
                (Exc OverflowError
                   "timestamp too large to convert to C _PyTime_t")
                eq_refl) as (H1 & H2 & _).
  split; [exact H1|exact H2].
Defined.

Lemma poll_reports_availability_witness :
  (IntraProcessQueue.poll (Some 0%Z) MoreExamples.three_items).1 = Returns true.
Proof.
  apply (poll_reports_availability 0 MoreExamples.three_items).
  vm_compute. split; discriminate.
Defined.

Lemma polls_full_cycle_witness :
  (IntraProcessQueue.run
     (replicate 3 (IntraProcessQueue.Poll None)) MoreExamples.three_items).2 =
    MoreExamples.three_items.
Proof.
  apply (polls_full_cycle None MoreExamples.three_items).
  intros secs H. discriminate.
Defined.

Lemma negative_timeout_is_rejected_witness :
  IntraProcessQueue.get (Some (-1)%Z) MoreExamples.three_items =
    (Raises (Exc ValueError "'timeout' must be a non-negative number"),
     MoreExamples.three_items).
Proof.
  apply (negative_timeout_is_rejected (-1) MoreExamples.three_items). lia.
Defined.

Lemma run_without_poll_keeps_order_witness :
  IntraProcessQueue.received
    (IntraProcessQueue.run MoreExamples.no_poll IntraProcessQueue.init).1 ++
  IntraProcessQueue.queue
    (IntraProcessQueue.run MoreExamples.no_poll IntraProcessQueue.init).2 =
  IntraProcessQueue.queue IntraProcessQueue.init ++
  put_items (IntraProcessQueue.run MoreExamples.no_poll IntraProcessQueue.init).1.
Proof.
  apply (run_without_poll_keeps_order MoreExamples.no_poll IntraProcessQueue.init).
  reflexivity.
Defined.

Lemma session_stays_consistent_witness :
  consistent (after_calls Examples.second_fails MoreExamples.calls3 Examples.pool3).
Proof.
  apply (session_stays_consistent Examples.second_fails MoreExamples.calls3
           Examples.pool3).
  split.
  - reflexivity.
  - simpl. constructor.
Defined.

Lemma submit_after_shutdown_witness :
  ProcessPoolExecutorSession.submit tt tt
    (ProcessPoolExecutorSession.shutdown Examples.pool3).2 =
    (Raises (Exc RuntimeError "cannot schedule new futures after shutdown"),
     (ProcessPoolExecutorSession.shutdown Examples.pool3).2).
Proof.
  apply (submit_after_shutdown Examples.all_succeed Examples.pool3 tt tt).
  simpl. lia.
Defined.

Lemma submit_does_not_wait_witness :
  exists fs,
    (ProcessPoolExecutorSession.submit tt tt Examples.pool3).1 = Returns fs.
Proof.
  apply (submit_does_not_wait Examples.pool3 tt tt). reflexivity.
Defined.

Lemma submit_sync_hangs_on_first_unfinished_witness :
  ProcessPoolExecutorSession.submit_sync MoreExamples.second_hangs tt tt
    Examples.pool3 =
    (Blocks,
     ProcessPoolExecutorSession.waited [0; 1]
       (ProcessPoolExecutorSession.submitted
          (ProcessPoolExecutorSession.futures_from 0 3 tt tt) Examples.pool3)).
Proof.
  assert (H1 : ProcessPoolExecutorSession.shutdown_thread
                 (ProcessPoolExecutorSession.mpi_pool Examples.pool3) = false)
    by reflexivity.
  assert (H2 : 1 < Z.to_nat (ProcessPoolExecutorSession.n_workers Examples.pool3))
    by (vm_compute; lia).
  assert (H3 : length [0] = 1) by reflexivity.
  refine (submit_sync_hangs_on_first_unfinished MoreExamples.second_hangs
            Examples.pool3 tt tt 1 [0] H1 H2 H3 _ _).
  - intros [|i] v Hv; simpl in Hv; inversion Hv; reflexivity.
  - reflexivity.
Defined.

Lemma nt_new_getattr_witness :
  getattr
    (PyNamedTuple ExecutorResponse (MoreExamples.six_args ++ [PyNone; PyNone]))
    "error" = Returns (PyStr "bad request").
Proof.
  apply (nt_new_getattr ExecutorResponse MoreExamples.six_args _ 5 "error"
           (PyStr "bad request")); reflexivity.
Defined.

Lemma nt_new_arity_witness :
  getattr
    (PyNamedTuple ExecutorResponse (MoreExamples.six_args ++ [PyNone; PyNone]))
    "timestamp" = Returns PyNone.
Proof.
  apply (proj2 (proj2 (nt_new_arity ExecutorResponse MoreExamples.six_args))
           _ 6 "timestamp").
  - reflexivity.
  - reflexivity.
  - simpl. lia.
Defined.

Lemma getattr_declared_fields_witness :
  exists i,
    _fields ExecutorResponse !! i = Some "disaggregated_params" /\
    getattr
      (PyNamedTuple ExecutorResponse (MoreExamples.six_args ++ [PyNone; PyNone]))
      "disaggregated_params" =
      Returns (default PyNone (MoreExamples.six_args !! i)).
Proof.
  apply (getattr_declared_fields ExecutorResponse MoreExamples.six_args _
           "disaggregated_params").
  - reflexivity.
  - apply (bool_decide_unpack _). vm_compute. exact I.
Defined.

Lemma replace_getattr_witness :
  exists msg,
    _replace (PyNamedTuple WorkerCommIpcAddrs Examples.five_empty) "queue" PyNone =
      Raises (Exc ValueError msg).
Proof.
  apply (replace_getattr WorkerCommIpcAddrs Examples.five_empty _ "queue" PyNone).
  - reflexivity.
  - apply (bool_decide_unpack _). vm_compute. exact I.
Defined.
